(** * Learning Journal: the storage manager and its callers

    A shallow embedding of [StorageManager] (the browser-local store, the
    remote JSON API and the merge between the two) and of the handlers of
    [main.js] that drive it, followed by the properties of the entry store
    synchronizer.

    Conventions of the embedding.
    - A journal entry is a record whose fields are optional: [None] is a
      property the JavaScript object does not have ([undefined] on access).
      Field types are those of the data model (strings, an integer
      millisecond timestamp, a location structure); values of other types
      (a numeric id, a [null] title) are outside the model.
    - Strings are byte strings; [String.prototype.toLowerCase] is a function
      of the platform, the field [toLowerCase] of the environment.
    - Effects (the [journalEntries] slot of localStorage, [Date.now()],
      [fetch]) are threaded through a state-and-exception monad [Eff]; the
      behaviour of the browser and of the remote service is an environment
      [Env] the functions read.
    - [console.log], [console.warn] and [console.error] are not modelled. *)

From Stdlib Require Import List String Ascii ZArith QArith Bool Arith Lia.
From Stdlib Require Import DecimalString.
Import ListNotations.

Local Open Scope string_scope.
Local Open Scope list_scope.

(* ================================================================== *)
(** ** Data model *)

(** Coordinates are JavaScript numbers; every finite one is a rational. *)
Definition coordinate := Q.

Record Location := mkLocation {
  city : option string;
  state : option string;
  country : option string;
  lat : option coordinate;
  lon : option coordinate
}.

Record Entry := mkEntry {
  id : option string;
  title : option string;
  content : option string;
  date : option string;
  timestamp : option Z;
  location : option Location
}.

(** [a === b] on two optional strings ([undefined === undefined] holds). *)
Definition strictEq (a b : option string) : bool :=
  match a, b with
  | Some x, Some y => String.eqb x y
  | None, None => true
  | _, _ => false
  end.

(** [Number.prototype.toString()] on an integer (below 1e21, where
    JavaScript prints plain decimal digits). *)
Definition toString (n : Z) : string :=
  NilZero.string_of_int (Z.to_int n).

(** [s || d] for an optional string: [undefined] and [''] are falsy. *)
Definition orString (s : option string) (d : string) : string :=
  match s with
  | Some EmptyString => d
  | Some x => x
  | None => d
  end.

(** Truthiness of an optional string and of an optional integer. *)
Definition truthyString (s : option string) : bool :=
  match s with
  | Some EmptyString => false
  | Some _ => true
  | None => false
  end.

Definition truthyNumber (n : option Z) : bool :=
  match n with
  | Some z => negb (Z.eqb z 0)
  | None => false
  end.

(** [{ ...base, ...entry }]: every property [entry] has replaces the one of
    [base]. *)
Definition orElse {A : Type} (x y : option A) : option A :=
  match x with
  | Some _ => x
  | None => y
  end.

Definition spread (base entry : Entry) : Entry :=
  {| id := orElse (id entry) (id base);
     title := orElse (title entry) (title base);
     content := orElse (content entry) (content base);
     date := orElse (date entry) (date base);
     timestamp := orElse (timestamp entry) (timestamp base);
     location := orElse (location entry) (location base) |}.

(* ================================================================== *)
(** ** The browser and the remote service *)

Inductive Method := GET | POST | PUT | DELETE.

(** A request as [fetch] receives it. The query string of the search
    endpoint is kept as the parameter list [URLSearchParams] serialises. *)
Record Request := mkRequest {
  method : Method;
  url : string;
  params : list (string * string);
  body : option Entry
}.

(** What a request comes back with: [fetch] rejects, or a response arrives
    with its [ok] flag and a body. [json] is [None] when the body is not
    JSON ([response.json()] rejects). For the listing endpoints the body is
    the array of entries; for the write endpoints it is a confirmation
    object the code only logs, so only whether it parses matters. *)
Inductive Response :=
| NetworkError
| Reply (ok : bool) (json : option (list Entry)).

(** The [journalEntries] slot of localStorage: never written, holding text
    [JSON.parse] rejects (or the empty string), or holding an array of
    entries. *)
Inductive Slot :=
| Absent
| Unparsable
| Stored (entries : list Entry).

Record World := mkWorld {
  entriesSlot : Slot;
  clockReads : nat;
  requests : list Request
}.

(** The environment: configuration of the storage manager and the behaviour
    of the platform.
    - [USE_API], [API_BASE]: the two configuration properties.
    - [clock k]: what the [k]-th reading of the system clock returns.
    - [isoDate t]: [new Date(t).toISOString().split('T')[0]].
    - [toLowerCase s]: [s.toLowerCase()].
    - [accepts es]: whether [localStorage.setItem] stores the serialised
      array [es]; it throws (QuotaExceededError, SecurityError) otherwise.
    - [network k r]: the outcome of request [r] when it is the [k]-th
      request issued. *)
Record Env := mkEnv {
  USE_API : bool;
  API_BASE : string;
  clock : nat -> Z;
  isoDate : Z -> string;
  toLowerCase : string -> string;
  accepts : list Entry -> bool;
  network : nat -> Request -> Response
}.

(* ================================================================== *)
(** ** The effect monad *)

Inductive Completion (A : Type) :=
| Normal (value : A)
| Throw (error : string).

Arguments Normal {A} value.
Arguments Throw {A} error.

Definition Eff (A : Type) : Type := World -> Completion A * World.

Definition ret {A : Type} (a : A) : Eff A := fun w => (Normal a, w).

Definition bind {A B : Type} (c : Eff A) (k : A -> Eff B) : Eff B :=
  fun w =>
    match c w with
    | (Normal a, w') => k a w'
    | (Throw e, w') => (Throw e, w')
    end.

Definition throw {A : Type} (e : string) : Eff A := fun w => (Throw e, w).

(** [try { body } catch (error) { handler(error) }]: what [body] did to the
    world before it threw stays done. *)
Definition tryCatch {A : Type} (body : Eff A) (handler : string -> Eff A)
  : Eff A :=
  fun w =>
    match body w with
    | (Normal a, w') => (Normal a, w')
    | (Throw e, w') => handler e w'
    end.

Declare Scope eff_scope.
Delimit Scope eff_scope with eff.
Notation "x <- c ;; k" := (bind c (fun x => k))
  (at level 61, c at next level, right associativity) : eff_scope.
Notation "c ;;; k" := (bind c (fun _ => k))
  (at level 61, right associativity) : eff_scope.
Local Open Scope eff_scope.

(** [xs.map(f)] for an effectful [f], left to right. *)
Fixpoint mapM {A B : Type} (f : A -> Eff B) (xs : list A) : Eff (list B) :=
  match xs with
  | [] => ret []
  | x :: rest =>
      y <- f x ;;
      ys <- mapM f rest ;;
      ret (y :: ys)
  end.

Section Platform.

Variable env : Env.

(** [localStorage.getItem(KEYS.ENTRIES)] *)
Definition getItem : Eff Slot := fun w => (Normal (entriesSlot w), w).

(** [localStorage.setItem(KEYS.ENTRIES, JSON.stringify(es))] *)
Definition setItem (es : list Entry) : Eff unit :=
  fun w =>
    if accepts env es
    then (Normal tt, {| entriesSlot := Stored es;
                        clockReads := clockReads w;
                        requests := requests w |})
    else (Throw "QuotaExceededError", w).

(** [localStorage.removeItem(KEYS.ENTRIES)] *)
Definition removeItem : Eff unit :=
  fun w => (Normal tt, {| entriesSlot := Absent;
                          clockReads := clockReads w;
                          requests := requests w |}).

(** [Date.now()] (and the reading behind [new Date()]) *)
Definition dateNow : Eff Z :=
  fun w => (Normal (clock env (clockReads w)),
            {| entriesSlot := entriesSlot w;
               clockReads := S (clockReads w);
               requests := requests w |}).

(** [await fetch(...)]: the request is issued and recorded; a network
    failure rejects, anything else resolves to the response. *)
Definition fetch (r : Request) : Eff (bool * option (list Entry)) :=
  fun w =>
    let w' := {| entriesSlot := entriesSlot w;
                 clockReads := clockReads w;
                 requests := requests w ++ [r] |} in
    match network env (List.length (requests w)) r with
    | NetworkError => (Throw "TypeError: Failed to fetch", w')
    | Reply ok json => (Normal (ok, json), w')
    end.

(** [await response.json()] *)
Definition responseJson (response : bool * option (list Entry))
  : Eff (list Entry) :=
  match snd response with
  | Some entries => ret entries
  | None => throw "SyntaxError"
  end.

End Platform.

(* ================================================================== *)
(** ** String helpers of the platform *)

Definition lowerAscii (c : ascii) : ascii :=
  let n := nat_of_ascii c in
  if (65 <=? n)%nat && (n <=? 90)%nat then ascii_of_nat (n + 32) else c.

(** What the platform's [toLowerCase] computes on a string of ASCII
    characters: the letters A to Z are folded, every other character is
    kept. The sample environments use it, on ASCII strings only. *)
Fixpoint foldAscii (s : string) : string :=
  match s with
  | EmptyString => EmptyString
  | String c rest => String (lowerAscii c) (foldAscii rest)
  end.

(** [s.includes(sub)] *)
Fixpoint includes (s sub : string) : bool :=
  prefix sub s ||
  match s with
  | EmptyString => false
  | String _ rest => includes rest sub
  end.

(** Truthiness of a string argument: [''] is falsy. *)
Definition nonEmpty (s : string) : bool :=
  match s with
  | EmptyString => false
  | String _ _ => true
  end.

(** [field?.toLowerCase().includes(lowerQuery)], with [undefined] read as
    the falsy value it is; [lower] is the platform's [toLowerCase]. *)
Definition fieldMatch (lower : string -> string) (field : option string)
  (lowerQuery : string) : bool :=
  match field with
  | Some text => includes (lower text) lowerQuery
  | None => false
  end.

(** [entry.date >= bound] and [entry.date <= bound]: code-unit order on two
    strings; any comparison with [undefined] is false. *)
Definition dateGe (d : option string) (bound : string) : bool :=
  match d with
  | Some x => String.leb bound x
  | None => false
  end.

Definition dateLe (d : option string) (bound : string) : bool :=
  match d with
  | Some x => String.leb x bound
  | None => false
  end.

(** [`${entryId}`] *)
Definition template (s : option string) : string :=
  match s with
  | Some x => x
  | None => "undefined"
  end.

(* ================================================================== *)
(** ** StorageManager *)

Module StorageManager.

Section Methods.

Variable env : Env.

(** [getAllEntries()] *)
Definition getAllEntries : Eff (list Entry) :=
  tryCatch
    (entries <- getItem ;;
     match entries with
     | Absent => ret []
     | Unparsable => throw "SyntaxError"
     | Stored parsed => ret parsed
     end)
    (fun _ => ret []).

(** The default [location] of [saveEntry]. *)
Definition unknownLocation : Location :=
  {| city := Some "Unknown"; state := None; country := Some "Unknown";
     lat := None; lon := None |}.

(** [saveEntry(entry)]. The object literal is evaluated property by
    property: the clock is read for [id], then for [date] and [timestamp]
    only where the caller's value is falsy. *)
Definition saveEntry (entry : Entry) : Eff bool :=
  tryCatch
    (entries <- getAllEntries ;;
     idNow <- dateNow env ;;
     dateValue <- (if truthyString (date entry)
                   then ret (orString (date entry) "")
                   else t <- dateNow env ;; ret (isoDate env t)) ;;
     timestampValue <- (match timestamp entry with
                        | Some z => if Z.eqb z 0 then dateNow env else ret z
                        | None => dateNow env
                        end) ;;
     let newEntry :=
       spread {| id := Some (toString idNow);
                 title := Some (orString (title entry) "");
                 content := Some (orString (content entry) "");
                 date := Some dateValue;
                 timestamp := Some timestampValue;
                 location := Some (match location entry with
                                   | Some l => l
                                   | None => unknownLocation
                                   end) |}
              entry in
     setItem env (newEntry :: entries) ;;;
     ret true)
    (fun _ => ret false).

(** [deleteEntry(entryId)] *)
Definition deleteEntry (entryId : option string) : Eff bool :=
  tryCatch
    (entries <- getAllEntries ;;
     let filteredEntries :=
       filter (fun entry => negb (strictEq (id entry) entryId)) entries in
     setItem env filteredEntries ;;;
     ret true)
    (fun _ => ret false).

(** [clearAllEntries()] *)
Definition clearAllEntries : Eff bool :=
  tryCatch (removeItem ;;; ret true) (fun _ => ret false).

(** [if (!response.ok) throw new Error(message)] *)
Definition requireOk (response : bool * option (list Entry))
  (message : string) : Eff unit :=
  if negb (fst response) then throw message else ret tt.

(** [fetchEntriesFromJSON()] *)
Definition fetchEntriesFromJSON : Eff (list Entry) :=
  tryCatch
    (if USE_API env then
       response <- fetch env
         (mkRequest GET (API_BASE env ++ "/reflections")%string [] None) ;;
       requireOk response "API request failed" ;;;
       entries <- responseJson response ;;
       ret entries
     else
       response <- fetch env
         (mkRequest GET "/static/backend/reflections.json" [] None) ;;
       requireOk response "Failed to fetch JSON file" ;;;
       entries <- responseJson response ;;
       ret entries)
    (fun _ => ret []).

(** [saveEntryToJSON(entry)] *)
Definition saveEntryToJSON (entry : Entry) : Eff bool :=
  if negb (USE_API env) then ret false
  else
    tryCatch
      (response <- fetch env
         (mkRequest POST (API_BASE env ++ "/add_reflection")%string []
            (Some entry)) ;;
       requireOk response "Failed to save entry via API" ;;;
       _ <- responseJson response ;;
       ret true)
      (fun _ => ret false).

(** The request [deleteEntryFromJSON] sends. *)
Definition deleteRequest (entryId : option string) : Request :=
  mkRequest DELETE
    (API_BASE env ++ "/delete_reflection/" ++ template entryId)%string
    [] None.

(** [deleteEntryFromJSON(entryId)] *)
Definition deleteEntryFromJSON (entryId : option string) : Eff bool :=
  if negb (USE_API env) then ret false
  else
    tryCatch
      (response <- fetch env (deleteRequest entryId) ;;
       requireOk response "Failed to delete entry via API" ;;;
       _ <- responseJson response ;;
       ret true)
      (fun _ => ret false).

(** The body of the [try] of [clearAllEntriesFromJSON]. [Promise.all] over
    promises that are created in array order: each call of
    [deleteEntryFromJSON] issues its request when it is made. *)
Definition clearAllBody : Eff (list bool) :=
  entries <- fetchEntriesFromJSON ;;
  mapM (fun entry => deleteEntryFromJSON (id entry)) entries.

(** [clearAllEntriesFromJSON()] *)
Definition clearAllEntriesFromJSON : Eff bool :=
  if negb (USE_API env) then ret false
  else
    tryCatch
      (clearAllBody ;;; ret true)
      (fun _ => ret false).

(** [clientSideSearch(entries, query, dateFrom, dateTo)] *)
Definition clientSideSearch (entries : list Entry)
  (query dateFrom dateTo : string) : list Entry :=
  let filtered := entries in
  let filtered :=
    if nonEmpty query then
      let lowerQuery := toLowerCase env query in
      filter (fun entry =>
                let titleMatch :=
                  fieldMatch (toLowerCase env) (title entry) lowerQuery in
                let contentMatch :=
                  fieldMatch (toLowerCase env) (content entry) lowerQuery in
                titleMatch || contentMatch) filtered
    else filtered in
  let filtered :=
    if nonEmpty dateFrom
    then filter (fun entry => dateGe (date entry) dateFrom) filtered
    else filtered in
  let filtered :=
    if nonEmpty dateTo
    then filter (fun entry => dateLe (date entry) dateTo) filtered
    else filtered in
  filtered.

(** The parameters [searchEntriesInJSON] appends to its query string. *)
Definition searchParams (query dateFrom dateTo : string)
  : list (string * string) :=
  (if nonEmpty query then [("q", query)] else []) ++
  (if nonEmpty dateFrom then [("date_from", dateFrom)] else []) ++
  (if nonEmpty dateTo then [("date_to", dateTo)] else []).

Definition searchRequest (query dateFrom dateTo : string) : Request :=
  mkRequest GET (API_BASE env ++ "/reflections/search")%string
    (searchParams query dateFrom dateTo) None.

(** [searchEntriesInJSON(query, dateFrom, dateTo)] *)
Definition searchEntriesInJSON (query dateFrom dateTo : string)
  : Eff (list Entry) :=
  if negb (USE_API env) then
    entries <- fetchEntriesFromJSON ;;
    ret (clientSideSearch entries query dateFrom dateTo)
  else
    tryCatch
      (response <- fetch env (searchRequest query dateFrom dateTo) ;;
       requireOk response "Search request failed" ;;;
       entries <- responseJson response ;;
       ret entries)
      (fun _ =>
         entries <- fetchEntriesFromJSON ;;
         ret (clientSideSearch entries query dateFrom dateTo)).

(** The loop of [syncWithJSON]: every local entry no remote entry shares
    the id of is pushed onto the copy of the remote array. *)
Definition mergeEntries (jsonEntries localEntries : list Entry)
  : list Entry :=
  fold_left
    (fun mergedEntries localEntry =>
       let found :=
         existsb (fun je => strictEq (id je) (id localEntry)) jsonEntries in
       if negb found then mergedEntries ++ [localEntry] else mergedEntries)
    localEntries jsonEntries.

(** [syncWithJSON(jsonEntries)] *)
Definition syncWithJSON (jsonEntries : list Entry) : Eff (list Entry) :=
  tryCatch
    (localEntries <- getAllEntries ;;
     let mergedEntries := mergeEntries jsonEntries localEntries in
     setItem env mergedEntries ;;;
     ret mergedEntries)
    (fun _ => ret jsonEntries).

(** The request [updateEntryInJSON] sends; [updates] is the object of the
    fields to change. *)
Definition updateRequest (entryId : option string) (updates : Entry)
  : Request :=
  mkRequest PUT
    (API_BASE env ++ "/update_reflection/" ++ template entryId)%string
    [] (Some updates).

(** [updateEntryInJSON(entryId, updates)] *)
Definition updateEntryInJSON (entryId : option string) (updates : Entry)
  : Eff bool :=
  if negb (USE_API env) then ret false
  else
    tryCatch
      (response <- fetch env (updateRequest entryId updates) ;;
       requireOk response "Failed to update entry via API" ;;;
       _ <- responseJson response ;;
       ret true)
      (fun _ => ret false).

(** [getEntriesCount(entries)]; [None] is a falsy argument. *)
Definition getEntriesCount (entries : option (list Entry)) : nat :=
  match entries with
  | Some es => List.length es
  | None => 0%nat
  end.

End Methods.

End StorageManager.

(* ================================================================== *)
(** ** The handlers of main.js, reduced to their storage calls *)

Module Main.

Section Handlers.

Variable env : Env.

(** [c || null] for a coordinate: [undefined] and [0] are falsy. *)
Definition orNull (c : option coordinate) : option coordinate :=
  match c with
  | Some q => if Qeq_bool q 0 then None else Some q
  | None => None
  end.

(** The entry object the submit handler builds; [found] is what
    [LocationService.getFullLocation()] resolved to. *)
Definition formEntry (titleValue contentValue : string) (found : Location)
  : Eff Entry :=
  today <- dateNow env ;;
  now <- dateNow env ;;
  ret {| id := None;
         title := Some titleValue;
         content := Some contentValue;
         date := Some (isoDate env today);
         timestamp := Some now;
         location :=
           Some {| city := Some (orString (city found) "Unknown");
                   state := Some (orString (state found) "");
                   country := Some (orString (country found) "Unknown");
                   lat := orNull (lat found);
                   lon := orNull (lon found) |} |}.

(** The create branch of the submit handler: the local success flag and
    the remote one. *)
Definition submitNewEntry (titleValue contentValue : string)
  (found : Location) : Eff (bool * bool) :=
  entry <- formEntry titleValue contentValue found ;;
  localSuccess <- StorageManager.saveEntry env entry ;;
  jsonSuccess <- StorageManager.saveEntryToJSON env entry ;;
  ret (localSuccess, jsonSuccess).

(** The two storage calls of the clear-all handler. *)
Definition clearAll : Eff (bool * bool) :=
  localSuccess <- StorageManager.clearAllEntries ;;
  jsonSuccess <- StorageManager.clearAllEntriesFromJSON env ;;
  ret (localSuccess, jsonSuccess).

(** [renderJournalEntries()]: the entries it goes on to display.
    [entriesGrid] tells whether the page has the element
    [journal-entries-grid]; without it the function returns at once and
    displays nothing. *)
Definition renderJournalEntries (entriesGrid : bool) : Eff (list Entry) :=
  if negb entriesGrid then ret []
  else
    entries <- StorageManager.fetchEntriesFromJSON env ;;
    match entries with
    | [] => StorageManager.getAllEntries
    | _ :: _ => StorageManager.syncWithJSON env entries
    end.

(** The entries [applyFilters] goes on to display, on the page of the
    filter form (which has the entries grid). *)
Definition applyFilters (keyword dateFrom dateTo : string)
  : Eff (list Entry) :=
  if USE_API env && (nonEmpty keyword || nonEmpty dateFrom || nonEmpty dateTo)
  then StorageManager.searchEntriesInJSON env keyword dateFrom dateTo
  else
    entries <- StorageManager.fetchEntriesFromJSON env ;;
    entries <- match entries with
               | [] => StorageManager.getAllEntries
               | _ :: _ => ret entries
               end ;;
    ret (StorageManager.clientSideSearch env entries keyword dateFrom dateTo).

(** [entries.findIndex(p)]; [None] is the index -1. *)
Fixpoint findIndex (p : Entry -> bool) (entries : list Entry) : option nat :=
  match entries with
  | [] => None
  | e :: rest =>
      if p e then Some 0%nat
      else match findIndex p rest with
           | Some i => Some (S i)
           | None => None
           end
  end.

(** [entries[i] = { ...entries[i], ...updates }] for an index in range. *)
Fixpoint updateAt (i : nat) (updates : Entry) (entries : list Entry)
  : list Entry :=
  match entries, i with
  | [], _ => []
  | e :: rest, O => spread e updates :: rest
  | e :: rest, S j => e :: updateAt j updates rest
  end.

(** The [updates] object of the submit handler. *)
Definition formUpdates (titleValue contentValue : string) : Entry :=
  {| id := None; title := Some titleValue; content := Some contentValue;
     date := None; timestamp := None; location := None |}.

(** The update branch of the submit handler, up to the remote flag it
    decides on. The local write is outside any [try]. *)
Definition submitUpdate (editingId titleValue contentValue : string)
  : Eff bool :=
  let updates := formUpdates titleValue contentValue in
  entries <- StorageManager.getAllEntries ;;
  (match findIndex (fun e => strictEq (id e) (Some editingId)) entries with
   | Some entryIndex => setItem env (updateAt entryIndex updates entries)
   | None => ret tt
   end) ;;;
  StorageManager.updateEntryInJSON env (Some editingId) updates.

(** The update branch with the re-render that follows a remote success. *)
Definition submitUpdateAndRender (entriesGrid : bool)
  (editingId titleValue contentValue : string) : Eff bool :=
  jsonSuccess <- submitUpdate editingId titleValue contentValue ;;
  if jsonSuccess
  then renderJournalEntries entriesGrid ;;; ret true
  else ret false.

(** [deleteEntry(entryId)] of main.js; [confirmed] is the answer to the
    confirmation dialog. The result tells whether the success branch ran. *)
Definition deleteEntry (entriesGrid confirmed : bool)
  (entryId : option string) : Eff bool :=
  if negb confirmed then ret false
  else
    localSuccess <- StorageManager.deleteEntry env entryId ;;
    jsonSuccess <- StorageManager.deleteEntryFromJSON env entryId ;;
    if localSuccess || jsonSuccess
    then renderJournalEntries entriesGrid ;;; ret true
    else ret false.

(** The click listener of the clear-all button, with the re-render that
    follows its two storage calls; [confirmed] is the answer to the
    confirmation dialog. *)
Definition clearAllClicked (entriesGrid confirmed : bool) : Eff bool :=
  if negb confirmed then ret false
  else
    flags <- clearAll ;;
    if fst flags || snd flags
    then renderJournalEntries entriesGrid ;;; ret true
    else ret false.

(** The entries the export handler hands to [exportJSON]; [None] when it
    stops with the nothing-to-export message. *)
Definition exportEntries : Eff (option (list Entry)) :=
  entries <- StorageManager.fetchEntriesFromJSON env ;;
  entries <- match entries with
             | [] => StorageManager.getAllEntries
             | _ :: _ => ret entries
             end ;;
  match entries with
  | [] => ret None
  | _ :: _ => ret (Some entries)
  end.

End Handlers.

End Main.

(* ================================================================== *)
(** ** Views of a world and sample environments *)

(** The entry collection the local store holds, as [getAllEntries] reads
    it. *)
Definition localCollection (w : World) : list Entry :=
  match entriesSlot w with
  | Stored es => es
  | Absent => []
  | Unparsable => []
  end.

Definition withSlot (w : World) (s : Slot) : World :=
  {| entriesSlot := s; clockReads := clockReads w; requests := requests w |}.

Definition withRequests (w : World) (rs : list Request) : World :=
  {| entriesSlot := entriesSlot w; clockReads := clockReads w;
     requests := rs |}.

(** The entries of [es] whose id no entry of [remote] has. *)
Definition missingFrom (remote : list Entry) (es : list Entry) : list Entry :=
  filter (fun l => negb (existsb (fun r => strictEq (id r) (id l)) remote)) es.

(** The merged sequence as the specification words it. *)
Definition mergedSpec (remote local : list Entry) : list Entry :=
  remote ++ missingFrom remote local.

Definition emptyWorld : World :=
  {| entriesSlot := Absent; clockReads := 0; requests := [] |}.

Definition worldHolding (es : list Entry) : World :=
  {| entriesSlot := Stored es; clockReads := 0; requests := [] |}.

Definition note (i t c d : string) (ts : Z) : Entry :=
  {| id := Some i; title := Some t; content := Some c; date := Some d;
     timestamp := Some ts; location := None |}.

(** A browser whose storage takes every write, a clock that advances one
    millisecond per reading, and a remote service that cannot be reached. *)
Definition offlineEnv (useApi : bool) : Env :=
  {| USE_API := useApi;
     API_BASE := "";
     clock := fun k => (1700000000000 + Z.of_nat k)%Z;
     isoDate := fun _ => "2023-11-14";
     toLowerCase := foldAscii;
     accepts := fun _ => true;
     network := fun _ _ => NetworkError |}.

(** The same browser with storage that refuses every write (storage
    disabled or full). *)
Definition fullStorageEnv : Env :=
  {| USE_API := true;
     API_BASE := "";
     clock := fun k => (1700000000000 + Z.of_nat k)%Z;
     isoDate := fun _ => "2023-11-14";
     toLowerCase := foldAscii;
     accepts := fun _ => false;
     network := fun _ _ => NetworkError |}.

(** Storage with room for a single entry. *)
Definition tightStorageEnv : Env :=
  {| USE_API := true;
     API_BASE := "";
     clock := fun k => (1700000000000 + Z.of_nat k)%Z;
     isoDate := fun _ => "2023-11-14";
     toLowerCase := foldAscii;
     accepts := fun es => (List.length es <=? 1)%nat;
     network := fun _ _ => NetworkError |}.

Definition remoteNote : Entry :=
  note "1" "Remote" "from the server" "2024-01-01" 1704067200000.

Definition localNote : Entry :=
  note "2" "Local" "only in the browser" "2024-01-02" 1704153600000.

(** A local entry with the id of [remoteNote] and other fields. *)
Definition staleNote : Entry :=
  note "1" "Draft" "edited offline" "2024-01-03" 1704240000000.

(** What [saveEntry] stores for [entry] when the clock has been read [n]
    times before, and how many readings the call takes. *)
Definition dateReads (entry : Entry) : nat :=
  if truthyString (date entry) then 0 else 1.

Definition timestampReads (entry : Entry) : nat :=
  if truthyNumber (timestamp entry) then 0 else 1.

Definition savedEntry (env : Env) (entry : Entry) (n : nat) : Entry :=
  spread
    {| id := Some (toString (clock env n));
       title := Some (orString (title entry) "");
       content := Some (orString (content entry) "");
       date := Some (if truthyString (date entry)
                     then orString (date entry) ""
                     else isoDate env (clock env (S n)));
       timestamp := Some (match timestamp entry with
                          | Some z =>
                              if Z.eqb z 0
                              then clock env (S n + dateReads entry)
                              else z
                          | None => clock env (S n + dateReads entry)
                          end);
       location := Some (match location entry with
                         | Some l => l
                         | None => StorageManager.unknownLocation
                         end) |}
    entry.

Definition withClockReads (w : World) (n : nat) : World :=
  {| entriesSlot := entriesSlot w; clockReads := n; requests := requests w |}.

(** The filter of [clientSideSearch] as the specification words it: one
    predicate, the conjunction of the three conditions that are given. *)
Definition searchSpec (env : Env) (query dateFrom dateTo : string)
  (e : Entry) : bool :=
  (if nonEmpty query
   then fieldMatch (toLowerCase env) (title e) (toLowerCase env query)
        || fieldMatch (toLowerCase env) (content e) (toLowerCase env query)
   else true)
  && (if nonEmpty dateFrom then dateGe (date e) dateFrom else true)
  && (if nonEmpty dateTo then dateLe (date e) dateTo else true).

(** [keyword] occurs in [field] up to the case of letters: the field is a
    string, and the lower-case form of the keyword is a substring of the
    lower-case form of the field. *)
Definition occursIgnoringCase (env : Env) (keyword : string)
  (field : option string) : Prop :=
  exists text before after,
    field = Some text
    /\ toLowerCase env text
       = (before ++ toLowerCase env keyword ++ after)%string.

Definition satisfies (env : Env) (query dateFrom dateTo : string)
  (e : Entry) : Prop :=
  (query <> "" ->
   occursIgnoringCase env query (title e)
   \/ occursIgnoringCase env query (content e))
  /\ (dateFrom <> "" ->
      exists d, date e = Some d /\ String.leb dateFrom d = true)
  /\ (dateTo <> "" ->
      exists d, date e = Some d /\ String.leb d dateTo = true).

(** The two entries of the search examples. *)
Definition alphaDay : Entry :=
  {| id := None; title := Some "Alpha day"; content := Some "x";
     date := Some "2024-01-01"; timestamp := None; location := None |}.

Definition betaDay : Entry :=
  {| id := None; title := Some "beta"; content := Some "no match";
     date := Some "2024-02-01"; timestamp := None; location := None |}.

(** The one request [fetchEntriesFromJSON] sends: to the API when it is
    enabled, for the static JSON file otherwise. *)
Definition listingRequest (env : Env) : Request :=
  if USE_API env
  then mkRequest GET (API_BASE env ++ "/reflections")%string [] None
  else mkRequest GET "/static/backend/reflections.json" [] None.

(** The entries a listing response yields: the body of a response that is
    ok and parses, nothing otherwise. *)
Definition listed (r : Response) : list Entry :=
  match r with
  | Reply true (Some es) => es
  | _ => []
  end.

(** Whether a write request came back ok with a body that parses. *)
Definition acknowledged (r : Response) : bool :=
  match r with
  | Reply true (Some _) => true
  | _ => false
  end.

(** The world after the requests [rs] have been issued. *)
Definition issue (w : World) (rs : list Request) : World :=
  withRequests w (requests w ++ rs).



(** Remote mode disabled, and a server that serves the static file. *)
Definition staticFileEnv : Env :=
  {| USE_API := false;
     API_BASE := "";
     clock := fun k => (1700000000000 + Z.of_nat k)%Z;
     isoDate := fun _ => "2023-11-14";
     toLowerCase := foldAscii;
     accepts := fun _ => true;
     network := fun _ r =>
       if String.eqb (url r) "/static/backend/reflections.json"
       then Reply true (Some [remoteNote])
       else NetworkError |}.

Definition thirdNote : Entry :=
  note "3" "Third" "also on the server" "2024-01-04" 1704326400000.

(** A remote service holding three entries that answers every request but
    the deletion of entry 2, which it refuses. *)
Definition flakyEnv : Env :=
  {| USE_API := true;
     API_BASE := "";
     clock := fun k => (1700000000000 + Z.of_nat k)%Z;
     isoDate := fun _ => "2023-11-14";
     toLowerCase := foldAscii;
     accepts := fun _ => true;
     network := fun _ r =>
       match method r with
       | GET => Reply true (Some [remoteNote; localNote; thirdNote])
       | DELETE =>
           if String.eqb (url r) "/delete_reflection/2"
           then Reply false None
           else Reply true (Some [])
       | _ => NetworkError
       end |}.

(** A clock that passes a millisecond boundary after its second reading. *)
Definition boundaryEnv : Env :=
  {| USE_API := false;
     API_BASE := "";
     clock := fun k => if (k <? 2)%nat then 1700000000000%Z
                       else 1700000000001%Z;
     isoDate := fun _ => "2023-11-14";
     toLowerCase := foldAscii;
     accepts := fun _ => true;
     network := fun _ _ => NetworkError |}.

Definition somewhere : Location :=
  {| city := Some "Kathmandu"; state := None; country := Some "Nepal";
     lat := None; lon := None |}.

(** The entry the submit handler builds when the clock has been read [n]
    times before. *)
Definition formedEntry (env : Env) (titleValue contentValue : string)
  (found : Location) (n : nat) : Entry :=
  {| id := None;
     title := Some titleValue;
     content := Some contentValue;
     date := Some (isoDate env (clock env n));
     timestamp := Some (clock env (S n));
     location :=
       Some {| city := Some (orString (city found) "Unknown");
               state := Some (orString (state found) "");
               country := Some (orString (country found) "Unknown");
               lat := Main.orNull (lat found);
               lon := Main.orNull (lon found) |} |}.


(** The entries of [es] whose id is not [entryId]. *)
Definition withoutId (entryId : option string) (es : list Entry)
  : list Entry :=
  filter (fun e => negb (strictEq (id e) entryId)) es.


(** A clock that stands still (every reading within one millisecond). *)
Definition frozenClockEnv : Env :=
  {| USE_API := false;
     API_BASE := "";
     clock := fun _ => 1700000000000%Z;
     isoDate := fun _ => "2023-11-14";
     toLowerCase := foldAscii;
     accepts := fun _ => true;
     network := fun _ _ => NetworkError |}.

(** The request for the static JSON file. *)
Definition staticRequest : Request :=
  mkRequest GET "/static/backend/reflections.json" [] None.

(** A remote service that answers every request with success and an empty
    array. *)
Definition healthyEnv : Env :=
  {| USE_API := true;
     API_BASE := "";
     clock := fun k => (1700000000000 + Z.of_nat k)%Z;
     isoDate := fun _ => "2023-11-14";
     toLowerCase := foldAscii;
     accepts := fun _ => true;
     network := fun _ _ => Reply true (Some []) |}.

(** Whether some entry of [es] has the id [entryId]. *)
Definition hasId (entryId : option string) (es : list Entry) : bool :=
  existsb (fun e => strictEq (id e) entryId) es.

(** [es] with the title and the content of the first entry whose id is
    [entryId] replaced, every other entry and field as it was. *)
Fixpoint editFirst (entryId titleValue contentValue : string)
  (es : list Entry) : list Entry :=
  match es with
  | [] => []
  | e :: rest =>
      if strictEq (id e) (Some entryId)
      then {| id := id e; title := Some titleValue;
              content := Some contentValue; date := date e;
              timestamp := timestamp e; location := location e |} :: rest
      else e :: editFirst entryId titleValue contentValue rest
  end.

(** What [renderJournalEntries] fetches when it starts in [w]. *)
Definition fetchedAt (env : Env) (w : World) : list Entry :=
  listed (network env (List.length (requests w)) (listingRequest env)).

(* ================================================================== *)
(** ** Theme and first-visit preferences *)

Module Preferences.

(** The text of the theme toggle button: the sun or the moon. *)
Inductive Icon := Sun | Moon.

(** The storage keys of the preferences. *)
Inductive Key := THEME | FIRST_VISIT.

(** What the preference functions and the theme handlers see of the
    browser: the two preference slots of localStorage, the two theme
    classes of [document.body], and the theme toggle button with its text
    ([hasToggle] is false when the page has no such button; [toggleText]
    is [None] while the button shows the text of the page source). *)
Record Browser := mkBrowser {
  themeSlot : option string;
  visitSlot : option string;
  lightMode : bool;
  darkMode : bool;
  hasToggle : bool;
  toggleText : option Icon
}.

Definition Act (A : Type) : Type := Browser -> Completion A * Browser.

Definition retB {A : Type} (a : A) : Act A := fun b => (Normal a, b).

Definition bindB {A B : Type} (c : Act A) (k : A -> Act B) : Act B :=
  fun b =>
    match c b with
    | (Normal a, b') => k a b'
    | (Throw e, b') => (Throw e, b')
    end.

Definition tryCatchB {A : Type} (body : Act A) (handler : string -> Act A)
  : Act A :=
  fun b =>
    match body b with
    | (Normal a, b') => (Normal a, b')
    | (Throw e, b') => handler e b'
    end.

Definition readSlot (k : Key) (b : Browser) : option string :=
  match k with
  | THEME => themeSlot b
  | FIRST_VISIT => visitSlot b
  end.

Definition writeSlot (k : Key) (v : string) (b : Browser) : Browser :=
  match k with
  | THEME =>
      {| themeSlot := Some v; visitSlot := visitSlot b;
         lightMode := lightMode b; darkMode := darkMode b;
         hasToggle := hasToggle b; toggleText := toggleText b |}
  | FIRST_VISIT =>
      {| themeSlot := themeSlot b; visitSlot := Some v;
         lightMode := lightMode b; darkMode := darkMode b;
         hasToggle := hasToggle b; toggleText := toggleText b |}
  end.

Section Methods.

(** Whether [localStorage.setItem(key, value)] stores the value; it throws
    otherwise. *)
Variable storable : Key -> string -> bool.

(** [localStorage.getItem(key)] *)
Definition getText (k : Key) : Act (option string) :=
  fun b => (Normal (readSlot k b), b).

(** [localStorage.setItem(key, value)] *)
Definition setText (k : Key) (v : string) : Act unit :=
  fun b =>
    if storable k v then (Normal tt, writeSlot k v b)
    else (Throw "QuotaExceededError", b).

(** [saveTheme(theme)] *)
Definition saveTheme (theme : string) : Act bool :=
  tryCatchB
    (bindB (setText THEME theme) (fun _ => retB true))
    (fun _ => retB false).

(** [getTheme()] *)
Definition getTheme : Act string :=
  tryCatchB
    (bindB (getText THEME) (fun saved => retB (orString saved "dark")))
    (fun _ => retB "dark").

(** [hasVisitedBefore()] *)
Definition hasVisitedBefore : Act bool :=
  tryCatchB
    (bindB (getText FIRST_VISIT)
       (fun saved => retB (match saved with
                           | Some text => String.eqb text "true"
                           | None => false
                           end)))
    (fun _ => retB false).

(** [markAsVisited()] *)
Definition markAsVisited : Act unit :=
  tryCatchB (setText FIRST_VISIT "true") (fun _ => retB tt).

(** The body classes and the button text for a theme: light mode for
    ['light'], dark mode for anything else. *)
Definition showTheme (light : bool) (b : Browser) : Browser :=
  {| themeSlot := themeSlot b; visitSlot := visitSlot b;
     lightMode := light; darkMode := negb light;
     hasToggle := hasToggle b;
     toggleText := if hasToggle b
                   then Some (if light then Sun else Moon)
                   else toggleText b |}.

(** [applySavedTheme()] *)
Definition applySavedTheme : Act unit :=
  bindB getTheme
    (fun savedTheme b =>
       (Normal tt, showTheme (String.eqb savedTheme "light") b)).

(** The click listener [setupThemeToggle] installs on the button. *)
Definition toggleClicked : Act unit :=
  fun b =>
    let isLightMode := lightMode b in
    let newTheme := if isLightMode then "dark" else "light" in
    let shown :=
      {| themeSlot := themeSlot b; visitSlot := visitSlot b;
         lightMode := String.eqb newTheme "light";
         darkMode := negb (String.eqb newTheme "light");
         hasToggle := hasToggle b;
         toggleText := Some (if String.eqb newTheme "light"
                             then Sun else Moon) |} in
    bindB (saveTheme newTheme) (fun _ => retB tt) shown.

End Methods.

(** A page as it is after a reload: the storage of [b], the classes and
    the button text of the page source. *)
Definition reloaded (b : Browser) (light dark : bool) : Browser :=
  {| themeSlot := themeSlot b; visitSlot := visitSlot b;
     lightMode := light; darkMode := dark;
     hasToggle := hasToggle b; toggleText := None |}.

Definition freshBrowser : Browser :=
  {| themeSlot := None; visitSlot := None; lightMode := false;
     darkMode := false; hasToggle := true; toggleText := None |}.

End Preferences.

(* ================================================================== *)
(** ** The service worker *)

Module ServiceWorker.

Definition CACHE_NAME : string := "my-journal-cache-v2".

Definition urlsToCache : list string :=
  [ "/";
    "/journal";
    "/projects";
    "/about";
    "/static/css/style.css";
    "/static/js/main.js";
    "/static/js/storage.js";
    "/static/images/profile.jpeg";
    "/static/images/icons-192.png";
    "/static/images/icons-512.png" ].

(** A response: its [ok] flag and its content. *)
Record Resource := mkResource {
  okStatus : bool;
  payload : string
}.

(** A cache maps request URLs to responses, in insertion order; the cache
    storage maps cache names to caches, in creation order. *)
Definition Cache : Type := list (string * Resource).
Definition CacheStorage : Type := list (string * Cache).

(** The request of a fetch event. *)
Record FetchRequest := mkFetchRequest {
  requestMethod : Method;
  requestUrl : string
}.

(** The network as the worker sees it: the response to a request, or
    [None] when the fetch rejects. *)
Definition Network : Type := Method -> string -> option Resource.

(** [cache.match(url)] *)
Fixpoint cacheMatch (u : string) (c : Cache) : option Resource :=
  match c with
  | [] => None
  | (v, r) :: rest => if String.eqb v u then Some r else cacheMatch u rest
  end.

(** [cache.put(url, response)]: an entry for the URL is replaced. *)
Definition cachePut (u : string) (r : Resource) (c : Cache) : Cache :=
  filter (fun e => negb (String.eqb (fst e) u)) c ++ [(u, r)].

(** [caches.keys()] *)
Definition cachesKeys (cs : CacheStorage) : list string := map fst cs.

(** [caches.has(name)] *)
Definition cachesHas (name : string) (cs : CacheStorage) : bool :=
  existsb (fun c => String.eqb (fst c) name) cs.

(** [caches.open(name)]: the cache is created when there is none. *)
Definition cachesOpen (name : string) (cs : CacheStorage) : CacheStorage :=
  if cachesHas name cs then cs else cs ++ [(name, [])].

(** [caches.delete(name)] *)
Definition cachesDelete (name : string) (cs : CacheStorage) : CacheStorage :=
  filter (fun c => negb (String.eqb (fst c) name)) cs.

(** The content of the cache [name] ([[]] when there is none). *)
Fixpoint cacheNamed (name : string) (cs : CacheStorage) : Cache :=
  match cs with
  | [] => []
  | (n, c) :: rest => if String.eqb n name then c else cacheNamed name rest
  end.

(** The storage with the content of the cache [name] replaced. *)
Fixpoint withCache (name : string) (c : Cache) (cs : CacheStorage)
  : CacheStorage :=
  match cs with
  | [] => []
  | (n, old) :: rest =>
      if String.eqb n name then (n, c) :: rest
      else (n, old) :: withCache name c rest
  end.

(** [caches.match(request)]: the first match over the caches in creation
    order; only GET requests match. *)
Fixpoint cachesMatchUrl (u : string) (cs : CacheStorage) : option Resource :=
  match cs with
  | [] => None
  | (_, c) :: rest =>
      match cacheMatch u c with
      | Some r => Some r
      | None => cachesMatchUrl u rest
      end
  end.

Definition cachesMatch (request : FetchRequest) (cs : CacheStorage)
  : option Resource :=
  match requestMethod request with
  | GET => cachesMatchUrl (requestUrl request) cs
  | _ => None
  end.

(** The fetches of [cache.addAll(urls)]: the responses in order, or [None]
    as soon as a fetch rejects or a response is not ok. *)
Fixpoint fetchAll (net : Network) (urls : list string)
  : option (list (string * Resource)) :=
  match urls with
  | [] => Some []
  | u :: rest =>
      match net GET u with
      | Some r =>
          if okStatus r
          then match fetchAll net rest with
               | Some fetched => Some ((u, r) :: fetched)
               | None => None
               end
          else None
      | None => None
      end
  end.

(** [cache.addAll(urls)] on the cache [name]: every response is stored, or
    the call rejects and nothing is stored. *)
Definition addAll (net : Network) (name : string) (urls : list string)
  (cs : CacheStorage) : Completion unit * CacheStorage :=
  match fetchAll net urls with
  | Some fetched =>
      (Normal tt,
       withCache name
         (fold_left (fun c e => cachePut (fst e) (snd e) c) fetched
            (cacheNamed name cs))
         cs)
  | None => (Throw "TypeError", cs)
  end.

(** The install handler: what [event.waitUntil] waits for. *)
Definition install (net : Network) (cs : CacheStorage)
  : Completion unit * CacheStorage :=
  addAll net CACHE_NAME urlsToCache (cachesOpen CACHE_NAME cs).

(** The activate handler: every cache with another name is deleted. *)
Definition activate (cs : CacheStorage) : CacheStorage :=
  fold_left (fun storage name => cachesDelete name storage)
    (filter (fun name => negb (String.eqb name CACHE_NAME)) (cachesKeys cs))
    cs.

(** The fetch handler: what [event.respondWith] answers with, [None] when
    it rejects. The caches are not written. *)
Definition onFetch (net : Network) (request : FetchRequest)
  (cs : CacheStorage) : option Resource :=
  match cachesMatch request cs with
  | Some response => Some response
  | None => net (requestMethod request) (requestUrl request)
  end.

(** Every entry of every cache named [CACHE_NAME] is for a URL of
    [urlsToCache]. *)
Definition shellOnly (cs : CacheStorage) : Prop :=
  forall n c u r,
    In (n, c) cs -> n = CACHE_NAME -> In (u, r) c -> In u urlsToCache.

(** A network that is down, and one that serves every URL. *)
Definition offline : Network := fun _ _ => None.

Definition online : Network :=
  fun _ u => Some {| okStatus := true; payload := u |}.

(** A network on which the profile picture is missing. *)
Definition brokenImage : Network :=
  fun _ u =>
    if String.eqb u "/static/images/profile.jpeg"
    then Some {| okStatus := false; payload := "Not Found" |}
    else Some {| okStatus := true; payload := u |}.

(** A storage left by an earlier version of the worker. *)
Definition oldStorage : CacheStorage :=
  [("my-journal-cache-v1",
    [("/", {| okStatus := true; payload := "old page" |});
     ("/reflections", {| okStatus := true; payload := "[]" |})])].

End ServiceWorker.

(** A remote service that accepts every write and lists two entries. *)
Definition listingEnv : Env :=
  {| USE_API := true;
     API_BASE := "";
     clock := fun k => (1700000000000 + Z.of_nat k)%Z;
     isoDate := fun _ => "2023-11-14";
     toLowerCase := foldAscii;
     accepts := fun _ => true;
     network := fun _ r =>
       match method r with
       | GET => Reply true (Some [thirdNote; remoteNote])
       | _ => Reply true (Some [])
       end |}.

(* ================================================================== *)
(** ** Properties *)

Import StorageManager.

(** *** Reading the local store *)

Lemma getAllEntries_eval (w : World) :
  getAllEntries w = (Normal (localCollection w), w).
Proof.
  unfold getAllEntries, tryCatch, bind, getItem, localCollection.
  cbn. destruct (entriesSlot w); reflexivity.
Qed.

Lemma localCollection_withSlot (w : World) (es : list Entry) :
  localCollection (withSlot w (Stored es)) = es.
Proof. reflexivity. Qed.

Lemma withSlot_withSlot (w : World) (s t : Slot) :
  withSlot (withSlot w s) t = withSlot w t.
Proof. reflexivity. Qed.

Lemma setItem_eval (env : Env) (es : list Entry) (w : World) :
  setItem env es w =
  if accepts env es then (Normal tt, withSlot w (Stored es))
  else (Throw "QuotaExceededError", w).
Proof. reflexivity. Qed.

(** *** The merge loop *)

Lemma strictEq_refl (a : option string) : strictEq a a = true.
Proof. destruct a as [s|]; cbn; [apply String.eqb_refl | reflexivity]. Qed.

Lemma strictEq_eq (a b : option string) : strictEq a b = true <-> a = b.
Proof.
  destruct a as [x|], b as [y|]; cbn; split; intro H;
    try discriminate; try reflexivity.
  - apply String.eqb_eq in H. now subst.
  - injection H as ->. apply String.eqb_refl.
Qed.

Lemma mergeEntries_acc (remote local acc : list Entry) :
  fold_left
    (fun mergedEntries localEntry =>
       let found :=
         existsb (fun je => strictEq (id je) (id localEntry)) remote in
       if negb found then mergedEntries ++ [localEntry] else mergedEntries)
    local acc
  = acc ++ missingFrom remote local.
Proof.
  revert acc. induction local as [|l rest IH]; intro acc; cbn.
  - now rewrite app_nil_r.
  - rewrite IH.
    destruct (existsb (fun je => strictEq (id je) (id l)) remote); cbn.
    + reflexivity.
    + now rewrite <- app_assoc.
Qed.

Lemma mergeEntries_spec (remote local : list Entry) :
  mergeEntries remote local = mergedSpec remote local.
Proof. apply mergeEntries_acc. Qed.

Lemma hasId_In (remote : list Entry) (e : Entry) :
  existsb (fun r => strictEq (id r) (id e)) remote = true <->
  exists r, In r remote /\ id r = id e.
Proof.
  rewrite existsb_exists. split; intros [r [Hin H]]; exists r; split; auto;
    now apply strictEq_eq.
Qed.

Lemma missingFrom_In (remote local : list Entry) (e : Entry) :
  In e (missingFrom remote local) <->
  In e local /\ forall r, In r remote -> id r <> id e.
Proof.
  unfold missingFrom. rewrite filter_In, negb_true_iff. split.
  - intros [Hin Hno]. split; [assumption|]. intros r Hr Heq.
    assert (existsb (fun r0 => strictEq (id r0) (id e)) remote = true) as Hex
      by (apply hasId_In; eauto).
    congruence.
  - intros [Hin Hno]. split; [assumption|].
    destruct (existsb (fun r => strictEq (id r) (id e)) remote) eqn:Hex;
      [|reflexivity].
    apply hasId_In in Hex. destruct Hex as [r [Hr Heq]].
    exfalso. exact (Hno r Hr Heq).
Qed.

Lemma missingFrom_self (remote : list Entry) :
  missingFrom remote remote = [].
Proof.
  unfold missingFrom.
  assert (forall es, (forall e, In e es -> In e remote) ->
            filter (fun l => negb (existsb (fun r => strictEq (id r) (id l))
                                     remote)) es = []) as H.
  { induction es as [|e es IH]; intro Hsub; cbn; [reflexivity|].
    assert (existsb (fun r => strictEq (id r) (id e)) remote = true) as ->.
    { apply hasId_In. exists e. split; [apply Hsub; now left | reflexivity]. }
    cbn. apply IH. intros x Hx. apply Hsub. now right. }
  apply H. auto.
Qed.

Lemma missingFrom_idem (remote local : list Entry) :
  missingFrom remote (missingFrom remote local) = missingFrom remote local.
Proof.
  unfold missingFrom. induction local as [|l rest IH]; cbn; [reflexivity|].
  destruct (existsb (fun r => strictEq (id r) (id l)) remote) eqn:Hex; cbn.
  - exact IH.
  - rewrite Hex. cbn. now rewrite IH.
Qed.

Lemma missingFrom_app (remote xs ys : list Entry) :
  missingFrom remote (xs ++ ys) = missingFrom remote xs ++ missingFrom remote ys.
Proof. unfold missingFrom. apply filter_app. Qed.

Lemma mergedSpec_again (remote local : list Entry) :
  mergedSpec remote (mergedSpec remote local) = mergedSpec remote local.
Proof.
  unfold mergedSpec.
  now rewrite missingFrom_app, missingFrom_self, missingFrom_idem.
Qed.

Lemma missingFrom_merged (remote local : list Entry) :
  missingFrom (mergedSpec remote local) local = [].
Proof.
  assert (forall es, (forall e, In e es -> In e local) ->
            missingFrom (mergedSpec remote local) es = []) as H.
  { induction es as [|e es IH]; intro Hsub; [reflexivity|].
    unfold missingFrom in *. cbn.
    assert (existsb (fun r => strictEq (id r) (id e))
              (mergedSpec remote local) = true) as ->.
    { apply hasId_In.
      destruct (existsb (fun r => strictEq (id r) (id e)) remote) eqn:Hex.
      - apply hasId_In in Hex. destruct Hex as [r [Hr Heq]].
        exists r. split; [|assumption].
        unfold mergedSpec. apply in_or_app. now left.
      - exists e. split; [|reflexivity].
        unfold mergedSpec. apply in_or_app. right.
        unfold missingFrom. apply filter_In. split.
        + apply Hsub. now left.
        + now rewrite Hex. }
    cbn. apply IH. intros x Hx. apply Hsub. now right. }
  apply H. auto.
Qed.

Lemma syncWithJSON_eval (env : Env) (remote : list Entry) (w : World) :
  syncWithJSON env remote w =
  if accepts env (mergedSpec remote (localCollection w))
  then (Normal (mergedSpec remote (localCollection w)),
        withSlot w (Stored (mergedSpec remote (localCollection w))))
  else (Normal remote, w).
Proof.
  unfold syncWithJSON, tryCatch, bind.
  rewrite getAllEntries_eval, mergeEntries_spec, setItem_eval.
  destruct (accepts env _); reflexivity.
Qed.

(** *** Writing the local store *)

Lemma saveEntry_eval (env : Env) (entry : Entry) (w : World) :
  let stored := savedEntry env entry (clockReads w) in
  let w1 := withClockReads w
              (S (clockReads w) + dateReads entry + timestampReads entry) in
  saveEntry env entry w =
  if accepts env (stored :: localCollection w)
  then (Normal true, withSlot w1 (Stored (stored :: localCollection w)))
  else (Normal false, w1).
Proof.
  unfold saveEntry, savedEntry, dateReads, timestampReads, tryCatch, bind.
  rewrite getAllEntries_eval. cbn.
  destruct (truthyString (date entry)) eqn:Hd;
    destruct (timestamp entry) as [z|] eqn:Ht; cbn;
    try (destruct (Z.eqb z 0) eqn:Hz; cbn);
    rewrite ?Nat.add_0_r, ?Nat.add_1_r;
    unfold setItem; cbn;
    match goal with
    | |- context [accepts env ?l] => destruct (accepts env l)
    end; reflexivity.
Qed.

Lemma saveEntry_success (env : Env) (entry : Entry) (w w' : World) :
  saveEntry env entry w = (Normal true, w') ->
  localCollection w'
  = savedEntry env entry (clockReads w) :: localCollection w.
Proof.
  rewrite saveEntry_eval. cbn zeta.
  destruct (accepts env _); intro H; inversion H. reflexivity.
Qed.

Lemma deleteEntry_eval (env : Env) (entryId : option string) (w : World) :
  let kept :=
    filter (fun e => negb (strictEq (id e) entryId)) (localCollection w) in
  deleteEntry env entryId w =
  if accepts env kept
  then (Normal true, withSlot w (Stored kept))
  else (Normal false, w).
Proof.
  unfold deleteEntry, tryCatch, bind.
  rewrite getAllEntries_eval, setItem_eval.
  destruct (accepts env _); reflexivity.
Qed.

Lemma filter_all {A : Type} (p : A -> bool) (xs : list A) :
  (forall x, In x xs -> p x = true) -> filter p xs = xs.
Proof.
  induction xs as [|x xs IH]; intro H; cbn; [reflexivity|].
  rewrite (H x (or_introl eq_refl)). f_equal. apply IH.
  intros y Hy. apply H. now right.
Qed.

(* ================================================================== *)
(** ** C1: what the merge produces and stores *)

(** C1, as stated, fails: with storage that has room for one entry only,
    merging the remote sequence [remoteNote] into a store holding
    [localNote] returns the remote sequence alone, not the two-entry merged
    sequence, and the store still holds what it held. *)
Lemma syncWithJSON_refused_write :
  syncWithJSON tightStorageEnv [remoteNote] (worldHolding [localNote])
  = (Normal [remoteNote], worldHolding [localNote])
  /\ mergedSpec [remoteNote] (localCollection (worldHolding [localNote]))
     = [remoteNote; localNote].
Proof. split; reflexivity. Qed.

(** C1, amended: for every remote sequence and every local store, the
    merged sequence is the remote entries in their order followed by the
    local entries whose id no remote entry has, in local order; an entry
    is in it exactly when it is a remote entry or a local entry whose id
    is absent from the remote sequence, so a local entry sharing an id
    with a remote one is dropped whatever its other fields are. When the
    local store takes the write, [syncWithJSON] returns the merged
    sequence and the store holds it; when the write is refused, it
    returns the remote sequence and the store is as it was. *)
Theorem syncWithJSON_merges (env : Env) (remote : list Entry) (w : World) :
  let merged := mergedSpec remote (localCollection w) in
  mergeEntries remote (localCollection w)
  = remote ++
    filter (fun l => negb (existsb (fun r => strictEq (id r) (id l)) remote))
      (localCollection w)
  /\ (forall e, In e merged <->
        In e remote \/
        (In e (localCollection w) /\ forall r, In r remote -> id r <> id e))
  /\ syncWithJSON env remote w
     = if accepts env merged
       then (Normal merged, withSlot w (Stored merged))
       else (Normal remote, w).
Proof.
  cbn zeta. split; [apply mergeEntries_spec|]. split.
  - intro e. unfold mergedSpec. rewrite in_app_iff, missingFrom_In.
    reflexivity.
  - apply syncWithJSON_eval.
Qed.

(** A local draft sharing the id of a remote entry is dropped, newer
    timestamp or not; the local entry with an id of its own is kept. *)
Example syncWithJSON_remote_wins :
  syncWithJSON (offlineEnv true) [remoteNote]
    (worldHolding [staleNote; localNote])
  = (Normal [remoteNote; localNote], worldHolding [remoteNote; localNote]).
Proof. reflexivity. Qed.

(* ================================================================== *)
(** ** C2: merging twice *)

(** C2: merging the same remote sequence a second time, after the first
    merge has run, returns what the first merge returned and leaves the
    world (the local store included) as the first merge left it; and on
    sequences, merging the merged sequence with the local one again
    gives the merged sequence. *)
Theorem syncWithJSON_idempotent (env : Env) (remote : list Entry) (w : World) :
  syncWithJSON env remote (snd (syncWithJSON env remote w))
  = syncWithJSON env remote w
  /\ (forall local,
        mergeEntries remote (mergeEntries remote local)
        = mergeEntries remote local)
  /\ (forall local,
        mergeEntries (mergeEntries remote local) local
        = mergeEntries remote local).
Proof.
  split; [|split].
  - rewrite (syncWithJSON_eval env remote w).
    destruct (accepts env (mergedSpec remote (localCollection w))) eqn:Hok;
      cbn [snd].
    + rewrite syncWithJSON_eval, localCollection_withSlot, mergedSpec_again.
      now rewrite Hok, withSlot_withSlot.
    + now rewrite syncWithJSON_eval, Hok.
  - intro local. rewrite !mergeEntries_spec. apply mergedSpec_again.
  - intro local. rewrite !mergeEntries_spec.
    unfold mergedSpec at 1. rewrite missingFrom_merged. apply app_nil_r.
Qed.

(* ================================================================== *)
(** ** C7: local delete *)

(** C7, as stated, fails: in a browser whose storage refuses every write
    and holds nothing, deleting an id nobody has reports failure. *)
Lemma deleteEntry_refused_write :
  deleteEntry fullStorageEnv (Some "42") emptyWorld
  = (Normal false, emptyWorld).
Proof. reflexivity. Qed.

(** C7, amended: for every store and every id, let [kept] be the prior
    entries whose id differs from the given one, in their order. When the
    local store takes the write, [deleteEntry] reports success and the
    store holds exactly [kept]; when the write is refused, it reports
    failure and the store is as it was. [kept] is the whole prior
    collection when no entry has the id, so deleting an id nobody has
    changes nothing and succeeds under the same condition. *)
Theorem deleteEntry_filters (env : Env) (entryId : option string) (w : World) :
  let kept :=
    filter (fun e => negb (strictEq (id e) entryId)) (localCollection w) in
  deleteEntry env entryId w
  = (if accepts env kept
     then (Normal true, withSlot w (Stored kept))
     else (Normal false, w))
  /\ (forall e, In e kept <-> In e (localCollection w) /\ id e <> entryId)
  /\ ((forall e, In e (localCollection w) -> id e <> entryId) ->
      kept = localCollection w).
Proof.
  cbn zeta. split; [apply deleteEntry_eval|]. split.
  - intro e. rewrite filter_In, negb_true_iff. split; intros [Hin H];
      (split; [assumption|]).
    + intro Heq. apply strictEq_eq in Heq. congruence.
    + destruct (strictEq (id e) entryId) eqn:Heq; [|reflexivity].
      apply strictEq_eq in Heq. contradiction.
  - intro Hno. apply filter_all. intros e He. apply negb_true_iff.
    destruct (strictEq (id e) entryId) eqn:Heq; [|reflexivity].
    apply strictEq_eq in Heq. exfalso. exact (Hno e He Heq).
Qed.

(* ================================================================== *)
(** ** C8: local create prepends *)

(** C8: after a [saveEntry] that reported success, the local collection
    is the newly stored entry followed by the prior collection,
    unchanged. *)
Theorem saveEntry_prepends (env : Env) (entry : Entry) (w w' : World) :
  saveEntry env entry w = (Normal true, w') ->
  localCollection w'
  = savedEntry env entry (clockReads w) :: localCollection w.
Proof. apply saveEntry_success. Qed.

Lemma saveEntry_prepends_witness :
  localCollection
    (snd (saveEntry (offlineEnv false) localNote (worldHolding [remoteNote])))
  = savedEntry (offlineEnv false) localNote 0 :: [remoteNote].
Proof.
  apply (saveEntry_prepends (offlineEnv false) localNote
           (worldHolding [remoteNote])).
  reflexivity.
Defined.

(* ================================================================== *)
(** ** C10: the caller's fields win *)

(** C10: after a [saveEntry] that reported success, the entry at the head
    of the local collection carries, for each of id, title, content, date,
    timestamp and location, the caller's value whenever the caller's
    object has that field; a caller-supplied id replaces the id generated
    from the clock. *)
Theorem saveEntry_caller_fields (env : Env) (entry : Entry) (w w' : World) :
  saveEntry env entry w = (Normal true, w') ->
  exists stored rest,
    localCollection w' = stored :: rest
    /\ (forall v, id entry = Some v -> id stored = Some v)
    /\ (forall v, title entry = Some v -> title stored = Some v)
    /\ (forall v, content entry = Some v -> content stored = Some v)
    /\ (forall v, date entry = Some v -> date stored = Some v)
    /\ (forall v, timestamp entry = Some v -> timestamp stored = Some v)
    /\ (forall v, location entry = Some v -> location stored = Some v).
Proof.
  intro H. apply saveEntry_success in H.
  exists (savedEntry env entry (clockReads w)), (localCollection w).
  split; [assumption|].
  unfold savedEntry, spread; cbn.
  repeat split; intros v ->; reflexivity.
Qed.

(** An entry that brings its own id keeps it: the clock would have given
    1700000000000. *)
Example saveEntry_keeps_caller_id :
  map id (localCollection
            (snd (saveEntry (offlineEnv false) localNote emptyWorld)))
  = [Some "2"]
  /\ map id (localCollection
               (snd (saveEntry (offlineEnv false) alphaDay emptyWorld)))
     = [Some "1700000000000"].
Proof. split; reflexivity. Qed.

Lemma saveEntry_caller_fields_witness :
  exists stored rest,
    localCollection
      (snd (saveEntry (offlineEnv false) localNote (worldHolding [remoteNote])))
    = stored :: rest
    /\ (forall v, id localNote = Some v -> id stored = Some v)
    /\ (forall v, title localNote = Some v -> title stored = Some v)
    /\ (forall v, content localNote = Some v -> content stored = Some v)
    /\ (forall v, date localNote = Some v -> date stored = Some v)
    /\ (forall v, timestamp localNote = Some v -> timestamp stored = Some v)
    /\ (forall v, location localNote = Some v -> location stored = Some v).
Proof.
  apply (saveEntry_caller_fields (offlineEnv false) localNote
           (worldHolding [remoteNote])).
  reflexivity.
Defined.

(* ================================================================== *)
(** ** C5: client-side search *)

Lemma prefix_app (sub s : string) :
  prefix sub s = true <-> exists after, s = (sub ++ after)%string.
Proof.
  revert s. induction sub as [|c sub IH]; intro s.
  - split; [intros _; now exists s | intros _; now destruct s].
  - destruct s as [|d s]; cbn.
    + split; [discriminate | intros [after H]; discriminate].
    + destruct (ascii_dec c d) as [->|Hne].
      * rewrite IH. split; intros [after H]; exists after.
        -- now subst.
        -- now injection H.
      * split; [discriminate|]. intros [after H]. injection H as H1 H2.
        congruence.
Qed.

Lemma includes_app (s sub : string) :
  includes s sub = true <->
  exists before after, s = (before ++ sub ++ after)%string.
Proof.
  induction s as [|c s IH].
  - cbn [includes]. rewrite orb_false_r, prefix_app. split.
    + intros [after H]. now exists "", after.
    + intros [before [after H]]. destruct before; [|discriminate].
      now exists after.
  - cbn [includes]. rewrite orb_true_iff, prefix_app, IH. split.
    + intros [[after H] | [before [after H]]].
      * now exists "", after.
      * exists (String c before), after. cbn. now rewrite H.
    + intros [before [after H]]. destruct before as [|d before].
      * left. now exists after.
      * right. exists before, after. cbn in H. now injection H.
Qed.

Lemma fieldMatch_occurs (env : Env) (field : option string)
  (keyword : string) :
  fieldMatch (toLowerCase env) field (toLowerCase env keyword) = true <->
  occursIgnoringCase env keyword field.
Proof.
  unfold occursIgnoringCase. destruct field as [text|]; cbn.
  - rewrite includes_app. split.
    + intros [before [after H]]. now exists text, before, after.
    + intros [text' [before [after [Heq H]]]]. injection Heq as ->.
      now exists before, after.
  - split; [discriminate|]. intros [text [b [a [H _]]]]. discriminate.
Qed.

Lemma nonEmpty_true (s : string) : nonEmpty s = true <-> s <> "".
Proof. destruct s; cbn; split; congruence. Qed.

Lemma searchSpec_satisfies (env : Env) (query dateFrom dateTo : string)
  (e : Entry) :
  searchSpec env query dateFrom dateTo e = true <->
  satisfies env query dateFrom dateTo e.
Proof.
  unfold searchSpec, satisfies. rewrite !andb_true_iff.
  assert (forall (b : string) (d : option string) (ok : string -> bool),
             (if nonEmpty b
              then match d with Some x => ok x | None => false end
              else true) = true <->
             (b <> "" -> exists x, d = Some x /\ ok x = true)) as Hdate.
  { intros b d ok. destruct (nonEmpty b) eqn:Hb.
    - apply nonEmpty_true in Hb. destruct d as [x|]; split.
      + intros H _. now exists x.
      + intros H. destruct (H Hb) as [y [Hy Hok]]. now injection Hy as ->.
      + discriminate.
      + intros H. destruct (H Hb) as [y [Hy _]]. discriminate.
    - split; [|reflexivity]. intros _ Hne. apply nonEmpty_true in Hne.
      congruence. }
  unfold dateGe, dateLe.
  rewrite (Hdate dateFrom (date e) (fun x => String.leb dateFrom x)).
  rewrite (Hdate dateTo (date e) (fun x => String.leb x dateTo)).
  assert ((if nonEmpty query
           then fieldMatch (toLowerCase env) (title e) (toLowerCase env query)
                || fieldMatch (toLowerCase env) (content e)
                     (toLowerCase env query)
           else true) = true <->
          (query <> "" ->
           occursIgnoringCase env query (title e)
           \/ occursIgnoringCase env query (content e))) as Hq.
  { destruct (nonEmpty query) eqn:Hb.
    - apply nonEmpty_true in Hb.
      rewrite orb_true_iff, !fieldMatch_occurs. tauto.
    - split; [|reflexivity]. intros _ Hne. apply nonEmpty_true in Hne.
      congruence. }
  rewrite Hq. tauto.
Qed.

Lemma filter_filter {A : Type} (p q : A -> bool) (xs : list A) :
  filter q (filter p xs) = filter (fun x => p x && q x) xs.
Proof.
  induction xs as [|x xs IH]; cbn; [reflexivity|].
  destruct (p x); cbn; [destruct (q x)|]; now rewrite IH.
Qed.

Lemma filter_true {A : Type} (xs : list A) :
  filter (fun _ => true) xs = xs.
Proof. induction xs as [|x xs IH]; cbn; [reflexivity | now rewrite IH]. Qed.

Lemma filter_when {A : Type} (b : bool) (p : A -> bool) (xs : list A) :
  (if b then filter p xs else xs)
  = filter (fun x => if b then p x else true) xs.
Proof. destruct b; [reflexivity | symmetry; apply filter_true]. Qed.

Lemma clientSideSearch_filter (env : Env) (entries : list Entry)
  (query dateFrom dateTo : string) :
  clientSideSearch env entries query dateFrom dateTo
  = filter (searchSpec env query dateFrom dateTo) entries.
Proof.
  unfold clientSideSearch. cbn zeta.
  rewrite !filter_when, !filter_filter.
  apply filter_ext. intro e. unfold searchSpec. now rewrite andb_assoc.
Qed.

(** C5: for every lower-casing function of the platform,
    [clientSideSearch] returns, in their order, exactly the entries that
    satisfy every condition given: the lower-case form of the keyword is a
    substring of the lower-case form of the title or of the content, the
    date is at least [dateFrom] and at most [dateTo] as strings. Two
    keywords with the same lower-case form select the same entries. On the
    two sample entries the keyword alpha selects the first only (given
    what [toLowerCase] returns on the five strings involved), and the
    bounds 2024-01-15 to 2024-02-15 select the second only. *)
Theorem clientSideSearch_exact (env : Env) (entries : list Entry)
  (query dateFrom dateTo : string) :
  clientSideSearch env entries query dateFrom dateTo
  = filter (searchSpec env query dateFrom dateTo) entries
  /\ (forall e,
        In e (clientSideSearch env entries query dateFrom dateTo) <->
        In e entries /\ satisfies env query dateFrom dateTo e)
  /\ (forall other,
        nonEmpty other = nonEmpty query ->
        toLowerCase env other = toLowerCase env query ->
        clientSideSearch env entries other dateFrom dateTo
        = clientSideSearch env entries query dateFrom dateTo)
  /\ (toLowerCase env "alpha" = "alpha" ->
      toLowerCase env "Alpha day" = "alpha day" ->
      toLowerCase env "x" = "x" ->
      toLowerCase env "beta" = "beta" ->
      toLowerCase env "no match" = "no match" ->
      clientSideSearch env [alphaDay; betaDay] "alpha" "" "" = [alphaDay])
  /\ clientSideSearch env [alphaDay; betaDay] "" "2024-01-15" "2024-02-15"
     = [betaDay].
Proof.
  split; [apply clientSideSearch_filter|]. split; [|split; [|split]].
  - intro e. rewrite clientSideSearch_filter, filter_In.
    now rewrite searchSpec_satisfies.
  - intros other Hsame Hlower. unfold clientSideSearch.
    now rewrite Hsame, Hlower.
  - intros H1 H2 H3 H4 H5. unfold clientSideSearch, fieldMatch. cbn.
    rewrite H1, H2, H3, H4, H5. reflexivity.
  - reflexivity.
Qed.

(** The keyword example in a browser that folds ASCII letters, and a
    keyword in capitals. *)
Example clientSideSearch_alpha :
  clientSideSearch (offlineEnv true) [alphaDay; betaDay] "alpha" "" ""
  = [alphaDay]
  /\ clientSideSearch (offlineEnv true) [alphaDay; betaDay] "ALPHA" "" ""
     = [alphaDay]
  /\ clientSideSearch (offlineEnv true) [alphaDay; betaDay] "gamma" "" ""
     = [].
Proof. repeat split. Qed.

(* ================================================================== *)
(** ** Talking to the remote service *)

Lemma issue_requests (w : World) (rs : list Request) :
  requests (issue w rs) = requests w ++ rs.
Proof. reflexivity. Qed.


Lemma issue_slot (w : World) (rs : list Request) :
  entriesSlot (issue w rs) = entriesSlot w.
Proof. reflexivity. Qed.


(** A listing call: fetch, check [ok], parse; the handler returns the
    empty array. *)
Lemma listingCall_eval (env : Env) (r : Request) (message : string)
  (w : World) :
  tryCatch
    (response <- fetch env r ;;
     requireOk response message ;;;
     entries <- responseJson response ;;
     ret entries)
    (fun _ => ret []) w
  = (Normal (listed (network env (List.length (requests w)) r)),
     issue w [r]).
Proof.
  unfold tryCatch, bind, fetch, requireOk, responseJson, issue, withRequests.
  destruct (network env (List.length (requests w)) r) as [|[|] [es|]];
    reflexivity.
Qed.

(** A write call: fetch, check [ok], parse, report [true]; the handler
    reports [false]. *)
Lemma writeCall_eval (env : Env) (r : Request) (message : string)
  (w : World) :
  tryCatch
    (response <- fetch env r ;;
     requireOk response message ;;;
     _ <- responseJson response ;;
     ret true)
    (fun _ => ret false) w
  = (Normal (acknowledged (network env (List.length (requests w)) r)),
     issue w [r]).
Proof.
  unfold tryCatch, bind, fetch, requireOk, responseJson, issue, withRequests.
  destruct (network env (List.length (requests w)) r) as [|[|] [es|]];
    reflexivity.
Qed.

Lemma fetchEntriesFromJSON_eval (env : Env) (w : World) :
  fetchEntriesFromJSON env w
  = (Normal (listed (network env (List.length (requests w))
                       (listingRequest env))),
     issue w [listingRequest env]).
Proof.
  unfold fetchEntriesFromJSON, listingRequest.
  destruct (USE_API env).
  - apply listingCall_eval.
  - apply listingCall_eval.
Qed.

Lemma saveEntryToJSON_eval (env : Env) (entry : Entry) (w : World) :
  exists sent,
    saveEntryToJSON env entry w = (Normal sent, issue w (if USE_API env
      then [mkRequest POST (API_BASE env ++ "/add_reflection")%string []
              (Some entry)]
      else [])).
Proof.
  unfold saveEntryToJSON. destruct (USE_API env); cbn [negb].
  - eexists. apply writeCall_eval.
  - exists false. unfold ret, issue, withRequests.
    rewrite app_nil_r. now destruct w.
Qed.




Lemma searchEntriesInJSON_eval (env : Env) (query dateFrom dateTo : string)
  (w : World) :
  USE_API env = true ->
  searchEntriesInJSON env query dateFrom dateTo w
  = match network env (List.length (requests w))
            (searchRequest env query dateFrom dateTo) with
    | Reply true (Some found) =>
        (Normal found, issue w [searchRequest env query dateFrom dateTo])
    | _ =>
        (Normal (clientSideSearch env
                   (listed (network env (S (List.length (requests w)))
                              (listingRequest env)))
                   query dateFrom dateTo),
         issue w [searchRequest env query dateFrom dateTo;
                  listingRequest env])
    end.
Proof.
  intro Hon. unfold searchEntriesInJSON. rewrite Hon. cbn [negb].
  unfold tryCatch, bind at 1 2 3, fetch, requireOk, responseJson.
  destruct (network env (List.length (requests w))
              (searchRequest env query dateFrom dateTo))
    as [|[|] [es|]] eqn:Hnet; cbn;
    try reflexivity;
    unfold bind; rewrite fetchEntriesFromJSON_eval; cbn;
    rewrite length_app; cbn; rewrite Nat.add_1_r;
    unfold issue, withRequests; cbn; now rewrite <- app_assoc.
Qed.

Lemma submitNewEntry_eval (env : Env) (titleValue contentValue : string)
  (found : Location) (w : World) :
  Main.submitNewEntry env titleValue contentValue found w
  = let entry :=
      formedEntry env titleValue contentValue found (clockReads w) in
    match saveEntry env entry (withClockReads w (2 + clockReads w)) with
    | (Normal localSuccess, w1) =>
        match saveEntryToJSON env entry w1 with
        | (Normal jsonSuccess, w2) =>
            (Normal (localSuccess, jsonSuccess), w2)
        | (Throw e, w2) => (Throw e, w2)
        end
    | (Throw e, w1) => (Throw e, w1)
    end.
Proof. reflexivity. Qed.

(* ================================================================== *)
(** ** C3: fetching all entries *)

(** C3, as stated, fails: with remote mode disabled [fetchEntriesFromJSON]
    asks for the static JSON file, and returns the entries of that file
    when the request succeeds. *)
Lemma fetchEntriesFromJSON_static_file :
  USE_API staticFileEnv = false
  /\ fetchEntriesFromJSON staticFileEnv emptyWorld
     = (Normal [remoteNote],
        issue emptyWorld
          [mkRequest GET "/static/backend/reflections.json" [] None]).
Proof. split; reflexivity. Qed.

(** C3, amended: [fetchEntriesFromJSON] never throws and never writes the
    local store. It sends one request, to the API when remote mode is
    enabled and for the static JSON file when it is disabled, and returns
    the entries of the response; whenever that request fails (network
    error, a response that is not ok, a body that does not parse) it
    returns the empty sequence. *)
Theorem fetchEntriesFromJSON_total (env : Env) (w : World) :
  fetchEntriesFromJSON env w
  = (Normal (listed (network env (List.length (requests w))
                       (listingRequest env))),
     issue w [listingRequest env])
  /\ entriesSlot (snd (fetchEntriesFromJSON env w)) = entriesSlot w
  /\ listed NetworkError = []
  /\ (forall json, listed (Reply false json) = [])
  /\ (forall ok, listed (Reply ok None) = [])
  /\ (forall es, listed (Reply true (Some es)) = es).
Proof.
  rewrite fetchEntriesFromJSON_eval. repeat split.
  intros [|]; reflexivity.
Qed.

(* ================================================================== *)
(** ** C4: clearing everything *)


Lemma renderJournalEntries_eval (env : Env) (entriesGrid : bool)
  (w : World) :
  Main.renderJournalEntries env entriesGrid w
  = if entriesGrid
    then
      match fetchedAt env w with
      | [] => (Normal (localCollection w), issue w [listingRequest env])
      | _ :: _ =>
          if accepts env (mergedSpec (fetchedAt env w) (localCollection w))
          then (Normal (mergedSpec (fetchedAt env w) (localCollection w)),
                withSlot (issue w [listingRequest env])
                  (Stored (mergedSpec (fetchedAt env w) (localCollection w))))
          else (Normal (fetchedAt env w), issue w [listingRequest env])
      end
    else (Normal [], w).
Proof.
  unfold Main.renderJournalEntries. destruct entriesGrid; cbn [negb];
    [|reflexivity].
  unfold bind. rewrite fetchEntriesFromJSON_eval. fold (fetchedAt env w).
  destruct (fetchedAt env w) as [|r rest].
  - now rewrite getAllEntries_eval.
  - now rewrite syncWithJSON_eval.
Qed.




(** After the two storage calls the clear-all handler re-renders, and the
    re-render merges whatever the remote service still lists into the
    local store. *)
Remark renderJournalEntries_after_clearAll :
  localCollection
    (snd (Main.renderJournalEntries flakyEnv true
            (snd (Main.clearAll flakyEnv (worldHolding [staleNote])))))
  = [remoteNote; localNote; thirdNote]
  /\ localCollection
       (snd (Main.clearAllClicked flakyEnv true true
               (worldHolding [staleNote])))
     = [remoteNote; localNote; thirdNote].
Proof. split; reflexivity. Qed.

(* ================================================================== *)
(** ** C6: search when the remote search fails *)

(** What [searchEntriesInJSON] falls back to when remote mode is enabled
    and the search request fails: the client-side filter over what
    [fetchEntriesFromJSON] returns, which is the empty sequence when that
    request fails too. The local store is not read. *)
Lemma searchEntriesInJSON_fallback (env : Env)
  (query dateFrom dateTo : string) (w : World) :
  USE_API env = true ->
  acknowledged (network env (List.length (requests w))
                  (searchRequest env query dateFrom dateTo)) = false ->
  searchEntriesInJSON env query dateFrom dateTo w
  = (Normal (clientSideSearch env
               (listed (network env (S (List.length (requests w)))
                          (listingRequest env)))
               query dateFrom dateTo),
     issue w [searchRequest env query dateFrom dateTo; listingRequest env]).
Proof.
  intros Hon Hfail. rewrite (searchEntriesInJSON_eval env _ _ _ w Hon).
  destruct (network env (List.length (requests w))
              (searchRequest env query dateFrom dateTo))
    as [|[|] [es|]]; try reflexivity. discriminate.
Qed.

(** C6, at the failing input: remote mode enabled, the remote service
    unreachable, the local store holding the two sample entries, keyword
    alpha. The search request fails, the fetch of the fallback fails, and
    [searchEntriesInJSON] returns the empty sequence, although filtering
    the local collection gives the first entry; the other branch of
    [applyFilters] (remote mode disabled) does fall back to the local
    collection and returns it. *)
Theorem searchEntriesInJSON_offline_misses_local :
  searchEntriesInJSON (offlineEnv true) "alpha" "" ""
    (worldHolding [alphaDay; betaDay])
  = (Normal [],
     issue (worldHolding [alphaDay; betaDay])
       [mkRequest GET "/reflections/search" [("q", "alpha")] None;
        mkRequest GET "/reflections" [] None])
  /\ fst (Main.applyFilters (offlineEnv true) "alpha" "" ""
            (worldHolding [alphaDay; betaDay]))
     = Normal []
  /\ clientSideSearch (offlineEnv true)
       (localCollection (worldHolding [alphaDay; betaDay])) "alpha" "" ""
     = [alphaDay]
  /\ fst (Main.applyFilters (offlineEnv false) "alpha" "" ""
            (worldHolding [alphaDay; betaDay]))
     = Normal [alphaDay].
Proof. repeat split. Qed.

(* ================================================================== *)
(** ** C9: the id and the timestamp of a created entry *)

(** C9, as stated, fails: when the clock passes a millisecond boundary
    between the handler's reading for the timestamp and the reading
    [saveEntry] takes for the id, the stored id is the string of the later
    millisecond. *)
Lemma submitNewEntry_across_boundary :
  map id (localCollection
            (snd (Main.submitNewEntry boundaryEnv "Title" "Content"
                    somewhere emptyWorld)))
  = [Some "1700000000001"]
  /\ map timestamp
       (localCollection
          (snd (Main.submitNewEntry boundaryEnv "Title" "Content"
                  somewhere emptyWorld)))
     = [Some 1700000000000%Z]
  /\ toString 1700000000000 = "1700000000000".
Proof. repeat split. Qed.

(** C9, amended: for every entry created through the submit handler and
    stored locally, the stored timestamp is the clock reading the handler
    took when it built the entry, and the stored id is the decimal string
    of the next clock reading, the one [saveEntry] takes; the id is the
    string of the stored timestamp whenever these two readings agree. *)
Theorem submitNewEntry_id_timestamp (env : Env)
  (titleValue contentValue : string) (found : Location)
  (w w' : World) (jsonSuccess : bool) :
  Main.submitNewEntry env titleValue contentValue found w
  = (Normal (true, jsonSuccess), w') ->
  exists stored,
    localCollection w' = stored :: localCollection w
    /\ timestamp stored = Some (clock env (1 + clockReads w))
    /\ id stored = Some (toString (clock env (2 + clockReads w)))
    /\ (clock env (1 + clockReads w) = clock env (2 + clockReads w) ->
        id stored = option_map toString (timestamp stored)).
Proof.
  rewrite submitNewEntry_eval. cbn zeta.
  set (entry := formedEntry env titleValue contentValue found (clockReads w)).
  rewrite saveEntry_eval. cbn zeta.
  set (stored := savedEntry env entry _).
  set (w1 := withClockReads _ _).
  destruct (accepts env _);
    match goal with
    | |- context [saveEntryToJSON env entry ?x] =>
        destruct (saveEntryToJSON_eval env entry x) as [sent Hs]; rewrite Hs
    end; intro H; inversion H; subst.
  exists stored. split; [reflexivity|].
  split; [reflexivity|]. split; [reflexivity|].
  intro Heq. cbn in Heq |- *. now rewrite Heq.
Qed.

Lemma submitNewEntry_id_timestamp_witness :
  exists stored,
    localCollection
      (snd (Main.submitNewEntry (offlineEnv false) "Title" "Content"
              somewhere (worldHolding [remoteNote])))
    = stored :: [remoteNote]
    /\ timestamp stored = Some 1700000000001%Z
    /\ id stored = Some "1700000000002"
    /\ (1700000000001%Z = 1700000000002%Z ->
        id stored = option_map toString (timestamp stored)).
Proof.
  exact (submitNewEntry_id_timestamp (offlineEnv false) "Title" "Content"
           somewhere (worldHolding [remoteNote]) _ false eq_refl).
Defined.

(* ================================================================== *)
(** ** Further properties of the local store *)

Lemma withoutId_idem (entryId : option string) (es : list Entry) :
  withoutId entryId (withoutId entryId es) = withoutId entryId es.
Proof.
  unfold withoutId. induction es as [|e es IH]; cbn; [reflexivity|].
  destruct (strictEq (id e) entryId) eqn:He; cbn; [exact IH|].
  rewrite He. cbn. now rewrite IH.
Qed.

Lemma withoutId_In (entryId : option string) (es : list Entry) (e : Entry) :
  In e (withoutId entryId es) <-> In e es /\ id e <> entryId.
Proof.
  unfold withoutId. rewrite filter_In, negb_true_iff. split;
    intros [Hin H]; (split; [assumption|]).
  - intro Heq. apply strictEq_eq in Heq. congruence.
  - destruct (strictEq (id e) entryId) eqn:Heq; [|reflexivity].
    apply strictEq_eq in Heq. contradiction.
Qed.

Lemma withoutId_all (entryId : option string) (es : list Entry) :
  (forall e, In e es -> id e <> entryId) -> withoutId entryId es = es.
Proof.
  intro Hno. apply filter_all. intros e He. apply negb_true_iff.
  destruct (strictEq (id e) entryId) eqn:Heq; [|reflexivity].
  apply strictEq_eq in Heq. exfalso. exact (Hno e He Heq).
Qed.

Lemma deleteEntry_success (env : Env) (entryId : option string)
  (w w' : World) :
  deleteEntry env entryId w = (Normal true, w') ->
  localCollection w' = withoutId entryId (localCollection w).
Proof.
  rewrite deleteEntry_eval. cbn zeta. fold (withoutId entryId (localCollection w)).
  destruct (accepts env _); intro H; inversion H. reflexivity.
Qed.

(** X1: deleting the same id a second time returns what the first deletion
    returned and changes nothing more, whether the first write was taken
    or refused. *)
Theorem deleteEntry_twice (env : Env) (entryId : option string) (w : World) :
  deleteEntry env entryId (snd (deleteEntry env entryId w))
  = deleteEntry env entryId w.
Proof.
  rewrite (deleteEntry_eval env entryId w). cbn zeta.
  fold (withoutId entryId (localCollection w)).
  destruct (accepts env (withoutId entryId (localCollection w))) eqn:Hok;
    cbn [snd]; rewrite deleteEntry_eval; cbn zeta.
  - rewrite localCollection_withSlot.
    fold (withoutId entryId (withoutId entryId (localCollection w))).
    now rewrite withoutId_idem, Hok, withSlot_withSlot.
  - fold (withoutId entryId (localCollection w)). now rewrite Hok.
Qed.

Lemma map_id_missingFrom_NoDup (remote local : list Entry) :
  NoDup (map id local) -> NoDup (map id (missingFrom remote local)).
Proof.
  unfold missingFrom. induction local as [|l rest IH]; cbn; intro H.
  - constructor.
  - inversion H as [|x xs Hnotin Hrest]; subst.
    destruct (existsb (fun r => strictEq (id r) (id l)) remote); cbn.
    + now apply IH.
    + constructor; [|now apply IH].
      intro Hin. apply Hnotin. apply in_map_iff in Hin.
      destruct Hin as [e [He Hine]]. apply filter_In in Hine.
      apply in_map_iff. exists e. tauto.
Qed.

(** X2: the merge keeps ids unique: when no two remote entries share an id
    and no two local entries share an id, no two entries of the merged
    sequence share an id. *)
Theorem mergeEntries_unique_ids (remote local : list Entry) :
  NoDup (map id remote) ->
  NoDup (map id local) ->
  NoDup (map id (mergeEntries remote local)).
Proof.
  intros Hr Hl. rewrite mergeEntries_spec. unfold mergedSpec.
  rewrite map_app. apply NoDup_app.
  - exact Hr.
  - now apply map_id_missingFrom_NoDup.
  - intros i Hir Hil. apply in_map_iff in Hir. destruct Hir as [r [Hr1 Hr2]].
    apply in_map_iff in Hil. destruct Hil as [l [Hl1 Hl2]].
    apply missingFrom_In in Hl2. destruct Hl2 as [_ Hno].
    apply (Hno r Hr2). congruence.
Qed.

Lemma mergeEntries_unique_ids_witness :
  NoDup (map id (mergeEntries [remoteNote; thirdNote] [staleNote; localNote])).
Proof.
  apply (mergeEntries_unique_ids [remoteNote; thirdNote]
           [staleNote; localNote]).
  - cbn. repeat constructor; cbn; intuition discriminate.
  - cbn. repeat constructor; cbn; intuition discriminate.
Defined.

(** X3: the merge at its edges and its size: with no remote entry the
    merged sequence is the local one, with no local entry it is the remote
    one, and the merged sequence has at least as many entries as the
    remote sequence and at most as many as both together. *)
Theorem mergeEntries_bounds (remote local : list Entry) :
  mergeEntries [] local = local
  /\ mergeEntries remote [] = remote
  /\ (List.length remote <= List.length (mergeEntries remote local))%nat
  /\ (List.length (mergeEntries remote local)
      <= List.length remote + List.length local)%nat.
Proof.
  rewrite !mergeEntries_spec. unfold mergedSpec, missingFrom.
  repeat split.
  - cbn. apply filter_true.
  - cbn. apply app_nil_r.
  - rewrite length_app. lia.
  - rewrite length_app.
    pose proof (filter_length_le
                  (fun l => negb (existsb (fun r => strictEq (id r) (id l))
                                    remote)) local).
    lia.
Qed.




(** X5: ids are as fine as the clock: two entries without an id of their
    own that are saved while the clock shows the same millisecond get the
    same id, and deleting by that id removes both. *)
Theorem saveEntry_same_millisecond (env : Env) (first second : Entry)
  (w w1 w2 w3 : World) :
  id first = None ->
  id second = None ->
  saveEntry env first w = (Normal true, w1) ->
  saveEntry env second w1 = (Normal true, w2) ->
  clock env (clockReads w) = clock env (clockReads w1) ->
  deleteEntry env (Some (toString (clock env (clockReads w)))) w2
  = (Normal true, w3) ->
  exists s1 s2,
    localCollection w2 = s2 :: s1 :: localCollection w
    /\ id s1 = Some (toString (clock env (clockReads w)))
    /\ id s2 = id s1
    /\ localCollection w3
       = withoutId (id s1) (localCollection w).
Proof.
  intros Hid1 Hid2 H1 H2 Hclock H3.
  apply saveEntry_success in H1. apply saveEntry_success in H2.
  apply deleteEntry_success in H3. rewrite H1 in H2.
  exists (savedEntry env first (clockReads w)),
    (savedEntry env second (clockReads w1)).
  assert (id (savedEntry env first (clockReads w))
          = Some (toString (clock env (clockReads w)))) as Hs1
    by (unfold savedEntry, spread; cbn; now rewrite Hid1).
  assert (id (savedEntry env second (clockReads w1))
          = Some (toString (clock env (clockReads w)))) as Hs2
    by (unfold savedEntry, spread; cbn; now rewrite Hid2, Hclock).
  split; [assumption|]. split; [assumption|]. split; [congruence|].
  rewrite H3, H2, Hs1. unfold withoutId. cbn [filter].
  rewrite Hs1, Hs2, strictEq_refl. reflexivity.
Qed.

Lemma saveEntry_same_millisecond_witness :
  exists s1 s2,
    localCollection
      (snd (saveEntry frozenClockEnv betaDay
              (snd (saveEntry frozenClockEnv alphaDay
                      (worldHolding [remoteNote])))))
    = s2 :: s1 :: [remoteNote]
    /\ id s1 = Some "1700000000000"
    /\ id s2 = id s1
    /\ localCollection
         (snd (deleteEntry frozenClockEnv (Some "1700000000000")
                 (snd (saveEntry frozenClockEnv betaDay
                         (snd (saveEntry frozenClockEnv alphaDay
                                 (worldHolding [remoteNote])))))))
       = withoutId (id s1) [remoteNote].
Proof.
  exact (saveEntry_same_millisecond frozenClockEnv alphaDay betaDay
           (worldHolding [remoteNote]) _ _ _
           eq_refl eq_refl eq_refl eq_refl eq_refl eq_refl).
Defined.

(** X6: saving and then deleting by the id of the stored entry gives back
    the collection there was before, provided no earlier entry has that
    id. *)
Theorem saveEntry_then_deleteEntry (env : Env) (entry : Entry)
  (w w1 w2 : World) :
  saveEntry env entry w = (Normal true, w1) ->
  (forall e, In e (localCollection w) ->
             id e <> id (savedEntry env entry (clockReads w))) ->
  deleteEntry env (id (savedEntry env entry (clockReads w))) w1
  = (Normal true, w2) ->
  localCollection w2 = localCollection w.
Proof.
  intros H1 Hfresh H2.
  apply saveEntry_success in H1. apply deleteEntry_success in H2.
  rewrite H2, H1. unfold withoutId. cbn [filter].
  rewrite strictEq_refl. cbn [negb].
  now apply withoutId_all.
Qed.

Lemma saveEntry_then_deleteEntry_witness :
  localCollection
    (snd (deleteEntry (offlineEnv false) (Some "1700000000000")
            (snd (saveEntry (offlineEnv false) alphaDay
                    (worldHolding [remoteNote; localNote])))))
  = [remoteNote; localNote].
Proof.
  apply (saveEntry_then_deleteEntry (offlineEnv false) alphaDay
           (worldHolding [remoteNote; localNote]) _ _ eq_refl).
  - intros e [<-|[<-|[]]]; discriminate.
  - reflexivity.
Defined.

(** X7: the local operations never throw and never talk to the remote
    service: reading, saving, deleting, clearing and merging all complete
    normally and leave the log of requests as it was. *)
Theorem local_operations_stay_local (env : Env) (entry : Entry)
  (entryId : option string) (remote : list Entry) (w : World) :
  (exists r, getAllEntries w = (Normal r, w))
  /\ (exists r w', saveEntry env entry w = (Normal r, w')
                   /\ requests w' = requests w)
  /\ (exists r w', deleteEntry env entryId w = (Normal r, w')
                   /\ requests w' = requests w)
  /\ (exists r w', clearAllEntries w = (Normal r, w')
                   /\ requests w' = requests w)
  /\ (exists r w', syncWithJSON env remote w = (Normal r, w')
                   /\ requests w' = requests w).
Proof.
  split; [eexists; apply getAllEntries_eval|].
  split; [rewrite saveEntry_eval; cbn zeta; destruct (accepts env _);
          eexists; eexists; split; reflexivity|].
  split; [rewrite deleteEntry_eval; cbn zeta; destruct (accepts env _);
          eexists; eexists; split; reflexivity|].
  split; [eexists; eexists; split; reflexivity|].
  rewrite syncWithJSON_eval; destruct (accepts env _);
    eexists; eexists; split; reflexivity.
Qed.

(* ================================================================== *)
(** ** Further properties of the remote calls *)

Lemma issue_nothing (w : World) : issue w [] = w.
Proof. unfold issue, withRequests. rewrite app_nil_r. now destruct w. Qed.

Lemma listingRequest_disabled (env : Env) :
  USE_API env = false -> listingRequest env = staticRequest.
Proof. intro H. unfold listingRequest. now rewrite H. Qed.

Lemma searchEntriesInJSON_disabled_eval (env : Env)
  (query dateFrom dateTo : string) (w : World) :
  USE_API env = false ->
  searchEntriesInJSON env query dateFrom dateTo w
  = (Normal (clientSideSearch env
               (listed (network env (List.length (requests w))
                          (listingRequest env)))
               query dateFrom dateTo),
     issue w [listingRequest env]).
Proof.
  intro Hoff. unfold searchEntriesInJSON. rewrite Hoff. cbn [negb].
  unfold bind. now rewrite fetchEntriesFromJSON_eval.
Qed.

(** X8: with remote mode disabled nothing reaches the API: saving,
    updating, deleting and clearing remotely report failure without any
    request, and fetching and searching make one request each, for the
    static JSON file. *)
Theorem disabled_mode_never_calls_api (env : Env) (entry updates : Entry)
  (entryId : option string) (query dateFrom dateTo : string) (w : World) :
  USE_API env = false ->
  saveEntryToJSON env entry w = (Normal false, w)
  /\ updateEntryInJSON env entryId updates w = (Normal false, w)
  /\ deleteEntryFromJSON env entryId w = (Normal false, w)
  /\ clearAllEntriesFromJSON env w = (Normal false, w)
  /\ snd (fetchEntriesFromJSON env w) = issue w [staticRequest]
  /\ snd (searchEntriesInJSON env query dateFrom dateTo w)
     = issue w [staticRequest].
Proof.
  intro Hoff.
  unfold saveEntryToJSON, updateEntryInJSON, deleteEntryFromJSON,
    clearAllEntriesFromJSON.
  rewrite Hoff. cbn [negb].
  rewrite fetchEntriesFromJSON_eval,
    (searchEntriesInJSON_disabled_eval env _ _ _ w Hoff),
    (listingRequest_disabled env Hoff).
  repeat split.
Qed.

Lemma disabled_mode_never_calls_api_witness :
  saveEntryToJSON staticFileEnv alphaDay emptyWorld
  = (Normal false, emptyWorld)
  /\ updateEntryInJSON staticFileEnv (Some "1") betaDay emptyWorld
     = (Normal false, emptyWorld)
  /\ deleteEntryFromJSON staticFileEnv (Some "1") emptyWorld
     = (Normal false, emptyWorld)
  /\ clearAllEntriesFromJSON staticFileEnv emptyWorld
     = (Normal false, emptyWorld)
  /\ snd (fetchEntriesFromJSON staticFileEnv emptyWorld)
     = issue emptyWorld [staticRequest]
  /\ snd (searchEntriesInJSON staticFileEnv "alpha" "" "" emptyWorld)
     = issue emptyWorld [staticRequest].
Proof.
  exact (disabled_mode_never_calls_api staticFileEnv alphaDay betaDay
           (Some "1") "alpha" "" "" emptyWorld eq_refl).
Defined.

(** X9: with remote mode enabled each remote write (save, update, delete)
    sends exactly one request, POST to add_reflection with the entry, PUT
    to update_reflection/id with the updates, DELETE to
    delete_reflection/id, and reports success exactly when the response
    is ok and its body parses; it never throws and leaves the local store
    alone. *)
Theorem remote_writes_one_request (env : Env) (entry updates : Entry)
  (entryId : option string) (w : World) :
  USE_API env = true ->
  let k := List.length (requests w) in
  let post :=
    mkRequest POST (API_BASE env ++ "/add_reflection")%string []
      (Some entry) in
  let put :=
    mkRequest PUT
      (API_BASE env ++ "/update_reflection/" ++ template entryId)%string []
      (Some updates) in
  let del :=
    mkRequest DELETE
      (API_BASE env ++ "/delete_reflection/" ++ template entryId)%string []
      None in
  saveEntryToJSON env entry w
  = (Normal (acknowledged (network env k post)), issue w [post])
  /\ updateEntryInJSON env entryId updates w
     = (Normal (acknowledged (network env k put)), issue w [put])
  /\ deleteEntryFromJSON env entryId w
     = (Normal (acknowledged (network env k del)), issue w [del])
  /\ acknowledged NetworkError = false
  /\ (forall json, acknowledged (Reply false json) = false)
  /\ (forall ok, acknowledged (Reply ok None) = false)
  /\ (forall es, acknowledged (Reply true (Some es)) = true).
Proof.
  intros Hon k post put del.
  unfold saveEntryToJSON, updateEntryInJSON, deleteEntryFromJSON.
  rewrite Hon. cbn [negb].
  split; [apply writeCall_eval|].
  split; [apply writeCall_eval|].
  split; [apply writeCall_eval|].
  repeat split. intros [|]; reflexivity.
Qed.

Lemma remote_writes_one_request_witness :
  saveEntryToJSON healthyEnv alphaDay emptyWorld
  = (Normal true,
     issue emptyWorld [mkRequest POST "/add_reflection" [] (Some alphaDay)])
  /\ updateEntryInJSON healthyEnv None betaDay emptyWorld
     = (Normal true,
        issue emptyWorld
          [mkRequest PUT "/update_reflection/undefined" [] (Some betaDay)])
  /\ deleteEntryFromJSON healthyEnv None emptyWorld
     = (Normal true,
        issue emptyWorld
          [mkRequest DELETE "/delete_reflection/undefined" [] None])
  /\ acknowledged NetworkError = false
  /\ (forall json, acknowledged (Reply false json) = false)
  /\ (forall ok, acknowledged (Reply ok None) = false)
  /\ (forall es, acknowledged (Reply true (Some es)) = true).
Proof.
  exact (remote_writes_one_request healthyEnv alphaDay betaDay None
           emptyWorld eq_refl).
Defined.

(** X10: a search never throws and never writes the local store, and what
    it returns is either the body of a successful answer of the remote
    search, taken as it is, or a sequence of which every entry satisfies
    the conditions given (for the keyword: its lower-case form, as the
    platform computes it, is a substring of the lower-case form of the
    title or of the content). *)
Theorem searchEntriesInJSON_results (env : Env)
  (query dateFrom dateTo : string) (w : World) :
  exists found w',
    searchEntriesInJSON env query dateFrom dateTo w = (Normal found, w')
    /\ entriesSlot w' = entriesSlot w
    /\ ((USE_API env = true
         /\ network env (List.length (requests w))
              (searchRequest env query dateFrom dateTo)
            = Reply true (Some found))
        \/ forall e, In e found -> satisfies env query dateFrom dateTo e).
Proof.
  assert (forall es e,
             In e (clientSideSearch env es query dateFrom dateTo) ->
             satisfies env query dateFrom dateTo e) as Hsat.
  { intros es e. rewrite clientSideSearch_filter, filter_In.
    intros [_ H]. now apply searchSpec_satisfies. }
  destruct (USE_API env) eqn:Hmode.
  - rewrite (searchEntriesInJSON_eval env _ _ _ w Hmode).
    destruct (network env (List.length (requests w))
                (searchRequest env query dateFrom dateTo))
      as [|[|] [es|]] eqn:Hnet;
      eexists; eexists; (split; [reflexivity|]); (split; [reflexivity|]);
      try (right; apply Hsat).
    left. split; reflexivity.
  - rewrite (searchEntriesInJSON_disabled_eval env _ _ _ w Hmode).
    eexists; eexists. split; [reflexivity|]. split; [reflexivity|].
    right. apply Hsat.
Qed.

(* ================================================================== *)
(** ** Further properties of the handlers *)


Lemma findIndex_editFirst (entryId titleValue contentValue : string)
  (es : list Entry) :
  match Main.findIndex (fun e => strictEq (id e) (Some entryId)) es with
  | Some k => Main.updateAt k (Main.formUpdates titleValue contentValue) es
  | None => es
  end
  = editFirst entryId titleValue contentValue es.
Proof.
  induction es as [|e rest IH]; cbn; [reflexivity|].
  destruct (strictEq (id e) (Some entryId)); [reflexivity|].
  destruct (Main.findIndex _ rest); cbn; now rewrite <- IH.
Qed.

Lemma findIndex_hasId (entryId : string) (es : list Entry) :
  Main.findIndex (fun e => strictEq (id e) (Some entryId)) es = None <->
  hasId (Some entryId) es = false.
Proof.
  unfold hasId. induction es as [|e rest IH]; cbn; [tauto|].
  destruct (strictEq (id e) (Some entryId)); cbn.
  - split; discriminate.
  - destruct (Main.findIndex _ rest); rewrite <- IH; split;
      intro H; try discriminate; reflexivity.
Qed.

Lemma editFirst_unknown (entryId titleValue contentValue : string)
  (es : list Entry) :
  hasId (Some entryId) es = false ->
  editFirst entryId titleValue contentValue es = es.
Proof.
  unfold hasId. induction es as [|e rest IH]; cbn; [reflexivity|].
  destruct (strictEq (id e) (Some entryId)); cbn; [discriminate|].
  intro H. now rewrite IH.
Qed.

Lemma submitUpdate_eval (env : Env) (entryId titleValue contentValue : string)
  (w : World) :
  Main.submitUpdate env entryId titleValue contentValue w
  = if hasId (Some entryId) (localCollection w)
    then
      if accepts env
           (editFirst entryId titleValue contentValue (localCollection w))
      then updateEntryInJSON env (Some entryId)
             (Main.formUpdates titleValue contentValue)
             (withSlot w
                (Stored (editFirst entryId titleValue contentValue
                           (localCollection w))))
      else (Throw "QuotaExceededError", w)
    else updateEntryInJSON env (Some entryId)
           (Main.formUpdates titleValue contentValue) w.
Proof.
  unfold Main.submitUpdate. cbn zeta. unfold bind at 1.
  rewrite getAllEntries_eval. unfold bind.
  pose proof (findIndex_editFirst entryId titleValue contentValue
                (localCollection w)) as Hedit.
  pose proof (findIndex_hasId entryId (localCollection w)) as Hfind.
  destruct (Main.findIndex _ (localCollection w)) as [k|].
  - destruct (hasId (Some entryId) (localCollection w)).
    + rewrite setItem_eval, Hedit.
      destruct (accepts env _); reflexivity.
    + destruct Hfind as [_ Hfind]. discriminate (Hfind eq_refl).
  - destruct Hfind as [Hfind _]. rewrite (Hfind eq_refl). reflexivity.
Qed.

Lemma updateEntryInJSON_slot (env : Env) (entryId : option string)
  (updates : Entry) (w : World) :
  exists sent,
    updateEntryInJSON env entryId updates w
    = (Normal sent,
       issue w (if USE_API env then [updateRequest env entryId updates]
                else [])).
Proof.
  unfold updateEntryInJSON. destruct (USE_API env); cbn [negb].
  - eexists. apply writeCall_eval.
  - exists false. now rewrite issue_nothing.
Qed.

Lemma editFirst_keeps (entryId titleValue contentValue : string)
  (es : list Entry) :
  map id (editFirst entryId titleValue contentValue es) = map id es
  /\ map date (editFirst entryId titleValue contentValue es) = map date es
  /\ map timestamp (editFirst entryId titleValue contentValue es)
     = map timestamp es
  /\ map location (editFirst entryId titleValue contentValue es)
     = map location es.
Proof.
  induction es as [|e rest [IH1 [IH2 [IH3 IH4]]]]; cbn; [tauto|].
  destruct (strictEq (id e) (Some entryId)); cbn;
    rewrite ?IH1, ?IH2, ?IH3, ?IH4; tauto.
Qed.

Lemma afterUpdate_collection (env : Env) (entriesGrid : bool)
  (entryId : option string) (updates : Entry) (x w' : World)
  (done : bool) :
  bind (updateEntryInJSON env entryId updates)
    (fun jsonSuccess =>
       if jsonSuccess
       then bind (Main.renderJournalEntries env entriesGrid)
              (fun _ => ret true)
       else ret false) x
  = (Normal done, w') ->
  localCollection w'
  = (if done && entriesGrid
     then match fetchedAt env (issue x [updateRequest env entryId updates])
          with
          | [] => localCollection x
          | _ :: _ =>
              if accepts env
                   (mergedSpec
                      (fetchedAt env
                         (issue x [updateRequest env entryId updates]))
                      (localCollection x))
              then mergedSpec
                     (fetchedAt env
                        (issue x [updateRequest env entryId updates]))
                     (localCollection x)
              else localCollection x
          end
     else localCollection x).
Proof.
  unfold bind at 1. unfold updateEntryInJSON.
  destruct (USE_API env); cbn [negb].
  - rewrite writeCall_eval.
    destruct (acknowledged _).
    + unfold bind. rewrite renderJournalEntries_eval.
      change (localCollection (issue x [updateRequest env entryId updates]))
        with (localCollection x).
      destruct entriesGrid.
      * destruct (fetchedAt env _) as [|r rs].
        -- intro H. inversion H. reflexivity.
        -- destruct (accepts env _); intro H; inversion H; reflexivity.
      * intro H. inversion H. reflexivity.
    + intro H. inversion H. reflexivity.
  - intro H. inversion H. reflexivity.
Qed.

(** X12: the update branch of the submit handler, re-render included.
    Its local write changes the title and the content of the first entry
    with the edited id and nothing else: ids, dates, timestamps and
    locations of all entries and their order stay, and when no entry has
    the id the collection is as it was. When the remote update fails the
    branch ends with that edited collection in the store. When it
    succeeds the branch re-renders: on a page with the entries grid the
    store then holds the merge of the fetched listing with the edited
    collection (the edited collection itself when the listing is empty
    or the store refuses the merged sequence); when the listing has an
    entry with the edited id, every entry with that id in the merged
    sequence is a listed one, so the local edit is replaced. *)
Theorem submitUpdate_edits_first (env : Env) (entriesGrid : bool)
  (entryId titleValue contentValue : string) (w w' : World)
  (done : bool) :
  Main.submitUpdateAndRender env entriesGrid entryId titleValue contentValue
    w
  = (Normal done, w') ->
  let edited :=
    editFirst entryId titleValue contentValue (localCollection w) in
  let fetched :=
    fetchedAt env
      (issue w [updateRequest env (Some entryId)
                  (Main.formUpdates titleValue contentValue)]) in
  map id edited = map id (localCollection w)
  /\ map date edited = map date (localCollection w)
  /\ map timestamp edited = map timestamp (localCollection w)
  /\ map location edited = map location (localCollection w)
  /\ (hasId (Some entryId) (localCollection w) = false ->
      edited = localCollection w)
  /\ localCollection w'
     = (if done && entriesGrid
        then match fetched with
             | [] => edited
             | _ :: _ =>
                 if accepts env (mergedSpec fetched edited)
                 then mergedSpec fetched edited
                 else edited
             end
        else edited)
  /\ (forall e r,
        In r fetched -> id r = Some entryId ->
        In e (mergedSpec fetched edited) -> id e = Some entryId ->
        In e fetched).
Proof.
  intros H edited fetched.
  destruct (editFirst_keeps entryId titleValue contentValue
              (localCollection w)) as [H1 [H2 [H3 H4]]].
  split; [exact H1|]. split; [exact H2|]. split; [exact H3|].
  split; [exact H4|]. split; [apply editFirst_unknown|].
  split.
  2:{ intros e r Hr Hrid He Heid. unfold mergedSpec in He.
      apply in_app_or in He. destruct He as [He|He]; [assumption|].
      apply missingFrom_In in He. destruct He as [_ Hno].
      exfalso. apply (Hno r Hr). congruence. }
  unfold Main.submitUpdateAndRender in H. unfold bind at 1 in H.
  rewrite submitUpdate_eval in H.
  destruct (hasId (Some entryId) (localCollection w)) eqn:Hhas.
  - destruct (accepts env _) eqn:Hok; [|discriminate].
    apply afterUpdate_collection in H. exact H.
  - apply afterUpdate_collection in H.
    unfold edited. rewrite editFirst_unknown by assumption. exact H.
Qed.

Lemma submitUpdate_edits_first_witness :
  map id (editFirst "1" "New title" "New text"
            [localNote; remoteNote; staleNote])
  = map id [localNote; remoteNote; staleNote]
  /\ map date (editFirst "1" "New title" "New text"
                 [localNote; remoteNote; staleNote])
     = map date [localNote; remoteNote; staleNote]
  /\ map timestamp (editFirst "1" "New title" "New text"
                      [localNote; remoteNote; staleNote])
     = map timestamp [localNote; remoteNote; staleNote]
  /\ map location (editFirst "1" "New title" "New text"
                     [localNote; remoteNote; staleNote])
     = map location [localNote; remoteNote; staleNote]
  /\ (hasId (Some "1") [localNote; remoteNote; staleNote] = false ->
      editFirst "1" "New title" "New text"
        [localNote; remoteNote; staleNote]
      = [localNote; remoteNote; staleNote])
  /\ localCollection
       (snd (Main.submitUpdateAndRender listingEnv true "1" "New title"
               "New text" (worldHolding [localNote; remoteNote; staleNote])))
     = [thirdNote; remoteNote; localNote]
  /\ (forall e r,
        In r [thirdNote; remoteNote] -> id r = Some "1" ->
        In e (mergedSpec [thirdNote; remoteNote]
                (editFirst "1" "New title" "New text"
                   [localNote; remoteNote; staleNote])) ->
        id e = Some "1" ->
        In e [thirdNote; remoteNote]).
Proof.
  exact (submitUpdate_edits_first listingEnv true "1" "New title" "New text"
           (worldHolding [localNote; remoteNote; staleNote]) _ true eq_refl).
Defined.

(** The same edit when the remote update fails: no re-render, and the
    store keeps the edited collection. *)
Example submitUpdate_remote_failure :
  Main.submitUpdateAndRender (offlineEnv true) true "1" "New title" "New text"
    (worldHolding [localNote; remoteNote; staleNote])
  = (Normal false,
     issue
       (worldHolding
          [localNote;
           note "1" "New title" "New text" "2024-01-01" 1704067200000;
           staleNote])
       [mkRequest PUT "/update_reflection/1" []
          (Some (Main.formUpdates "New title" "New text"))]).
Proof. reflexivity. Qed.

(** X13: the local write of an edit is not guarded: when an entry has the
    edited id and the store refuses the write, the handler throws, the
    remote update is not attempted and nothing has changed. *)
Theorem submitUpdate_refused_write_throws (env : Env)
  (entryId titleValue contentValue : string) (w : World) :
  hasId (Some entryId) (localCollection w) = true ->
  accepts env (editFirst entryId titleValue contentValue (localCollection w))
  = false ->
  Main.submitUpdate env entryId titleValue contentValue w
  = (Throw "QuotaExceededError", w).
Proof.
  intros Hhas Hno. rewrite submitUpdate_eval. now rewrite Hhas, Hno.
Qed.

Lemma submitUpdate_refused_write_throws_witness :
  Main.submitUpdate fullStorageEnv "1" "New title" "New text"
    (worldHolding [remoteNote])
  = (Throw "QuotaExceededError", worldHolding [remoteNote]).
Proof.
  exact (submitUpdate_refused_write_throws fullStorageEnv "1" "New title"
           "New text" (worldHolding [remoteNote]) eq_refl eq_refl).
Defined.

(** X14: creating an entry with remote mode enabled sends the entry the
    form produced, which has no id, to add_reflection, and stores locally
    the same entry with the id generated from the clock: the two copies
    agree on title, content, date, timestamp and location, and only the
    local one has an id. *)
Theorem submitNewEntry_sends_no_id (env : Env)
  (titleValue contentValue : string) (found : Location)
  (w w' : World) (jsonSuccess : bool) :
  USE_API env = true ->
  Main.submitNewEntry env titleValue contentValue found w
  = (Normal (true, jsonSuccess), w') ->
  exists stored sent,
    localCollection w' = stored :: localCollection w
    /\ requests w'
       = requests w
         ++ [mkRequest POST (API_BASE env ++ "/add_reflection")%string []
               (Some sent)]
    /\ id sent = None
    /\ id stored = Some (toString (clock env (2 + clockReads w)))
    /\ title stored = title sent
    /\ content stored = content sent
    /\ date stored = date sent
    /\ timestamp stored = timestamp sent
    /\ location stored = location sent.
Proof.
  intro Hon. rewrite submitNewEntry_eval. cbn zeta.
  set (entry := formedEntry env titleValue contentValue found (clockReads w)).
  rewrite saveEntry_eval. cbn zeta.
  set (stored := savedEntry env entry _).
  unfold saveEntryToJSON. rewrite Hon. cbn [negb].
  destruct (accepts env _); rewrite writeCall_eval; intro H; inversion H.
  exists stored, entry. repeat split.
Qed.

Lemma submitNewEntry_sends_no_id_witness :
  exists stored sent,
    localCollection
      (snd (Main.submitNewEntry healthyEnv "Title" "Content" somewhere
              emptyWorld))
    = stored :: []
    /\ requests
         (snd (Main.submitNewEntry healthyEnv "Title" "Content" somewhere
                 emptyWorld))
       = [] ++ [mkRequest POST "/add_reflection" [] (Some sent)]
    /\ id sent = None
    /\ id stored = Some "1700000000002"
    /\ title stored = title sent
    /\ content stored = content sent
    /\ date stored = date sent
    /\ timestamp stored = timestamp sent
    /\ location stored = location sent.
Proof.
  exact (submitNewEntry_sends_no_id healthyEnv "Title" "Content" somewhere
           emptyWorld _ true eq_refl eq_refl).
Defined.

Lemma deleteEntryFromJSON_slot (env : Env) (entryId : option string)
  (w : World) :
  exists sent,
    deleteEntryFromJSON env entryId w
    = (Normal sent,
       issue w (if USE_API env then [deleteRequest env entryId] else [])).
Proof.
  unfold deleteEntryFromJSON. destruct (USE_API env); cbn [negb].
  - eexists. apply writeCall_eval.
  - exists false. now rewrite issue_nothing.
Qed.

Lemma deleteHandler_eval (env : Env) (entriesGrid : bool)
  (entryId : option string) (w : World) :
  accepts env (withoutId entryId (localCollection w)) = true ->
  Main.deleteEntry env entriesGrid true entryId w
  = match Main.renderJournalEntries env entriesGrid
            (issue (withSlot w (Stored (withoutId entryId
                                          (localCollection w))))
               (if USE_API env then [deleteRequest env entryId] else []))
    with
    | (Normal _, w') => (Normal true, w')
    | (Throw e, w') => (Throw e, w')
    end.
Proof.
  intro Hok. unfold Main.deleteEntry. cbn [negb]. unfold bind at 1.
  rewrite deleteEntry_eval. cbn zeta.
  fold (withoutId entryId (localCollection w)). rewrite Hok.
  unfold bind at 1.
  destruct (deleteEntryFromJSON_slot env entryId
              (withSlot w (Stored (withoutId entryId (localCollection w)))))
    as [sent Hs].
  rewrite Hs. cbn [orb]. reflexivity.
Qed.

Lemma hasId_false (entryId : option string) (es : list Entry) :
  hasId entryId es = false <-> forall e, In e es -> id e <> entryId.
Proof.
  unfold hasId. split.
  - intros H e He Heq.
    assert (existsb (fun e0 => strictEq (id e0) entryId) es = true) as Hex
      by (apply existsb_exists; exists e; split;
          [assumption | now apply strictEq_eq]).
    congruence.
  - intro H. destruct (existsb _ es) eqn:Hex; [|reflexivity].
    apply existsb_exists in Hex. destruct Hex as [e [He Heq]].
    apply strictEq_eq in Heq. exfalso. exact (H e He Heq).
Qed.

(** X15: a confirmed deletion whose local write is taken leaves no entry
    with the deleted id in the local store after the re-render, on a page
    with or without the entries grid, provided the remote service no
    longer lists an entry with that id. *)
Theorem deleteHandler_removes (env : Env) (entriesGrid : bool)
  (entryId : option string) (w w' : World) (done : bool) :
  Main.deleteEntry env entriesGrid true entryId w = (Normal done, w') ->
  accepts env (withoutId entryId (localCollection w)) = true ->
  (forall r,
      In r (fetchedAt env
              (issue w (if USE_API env then [deleteRequest env entryId]
                        else []))) ->
      id r <> entryId) ->
  hasId entryId (localCollection w') = false.
Proof.
  intros H Hok Hgone. apply hasId_false.
  rewrite (deleteHandler_eval env entriesGrid entryId w Hok) in H.
  rewrite renderJournalEntries_eval in H.
  set (kept := withoutId entryId (localCollection w)) in *.
  set (w2 := issue (withSlot w (Stored kept)) _) in *.
  change (fetchedAt env w2) with
    (fetchedAt env (issue w (if USE_API env then [deleteRequest env entryId]
                             else []))) in H.
  set (fetched := fetchedAt env _) in *.
  assert (localCollection w2 = kept) as Hcol by reflexivity.
  rewrite Hcol in H.
  assert (forall e, In e kept -> id e <> entryId) as Hkept
    by (intros e He; apply withoutId_In in He; tauto).
  destruct entriesGrid; [|inversion H; subst; exact Hkept].
  destruct fetched as [|r0 rest] eqn:Hf.
  - inversion H; subst. exact Hkept.
  - destruct (accepts env (mergedSpec (r0 :: rest) kept));
      inversion H; subst; [|exact Hkept].
    intros e He. cbn in He. change (In e (mergedSpec (r0 :: rest) kept)) in He.
    unfold mergedSpec in He. apply in_app_or in He.
    destruct He as [He|He]; [now apply Hgone|].
    apply missingFrom_In in He. apply Hkept. tauto.
Qed.

Lemma deleteHandler_removes_witness :
  hasId (Some "2")
    (localCollection
       (snd (Main.deleteEntry listingEnv true true (Some "2")
               (worldHolding [staleNote; localNote]))))
  = false.
Proof.
  apply (deleteHandler_removes listingEnv true (Some "2")
           (worldHolding [staleNote; localNote]) _ true eq_refl eq_refl).
  intros r [<-|[<-|[]]]; discriminate.
Defined.

(** The store after that deletion and its re-render: the two entries the
    remote service lists; the local draft with the id of a listed entry
    is gone as well. *)
Example deleteHandler_after_merge :
  localCollection
    (snd (Main.deleteEntry listingEnv true true (Some "2")
            (worldHolding [staleNote; localNote])))
  = [thirdNote; remoteNote].
Proof. reflexivity. Qed.

(** X16: a deleted entry comes back: on a page with the entries grid,
    when the local write of a confirmed deletion is taken but the remote
    service still lists an entry with the deleted id afterwards, the
    re-render merges that entry into the local store again (if the store
    takes the merged sequence). *)
Theorem deleteHandler_resurrects (env : Env) (entryId : option string)
  (w w' : World) (done : bool) (r : Entry) :
  Main.deleteEntry env true true entryId w = (Normal done, w') ->
  accepts env (withoutId entryId (localCollection w)) = true ->
  In r (fetchedAt env
          (issue w (if USE_API env then [deleteRequest env entryId]
                    else []))) ->
  id r = entryId ->
  accepts env
    (mergedSpec
       (fetchedAt env
          (issue w (if USE_API env then [deleteRequest env entryId]
                    else [])))
       (withoutId entryId (localCollection w))) = true ->
  In r (localCollection w') /\ hasId entryId (localCollection w') = true.
Proof.
  intros H Hok Hr Hid Hmerge.
  rewrite (deleteHandler_eval env true entryId w Hok) in H.
  rewrite renderJournalEntries_eval in H.
  set (kept := withoutId entryId (localCollection w)) in *.
  set (w2 := issue (withSlot w (Stored kept)) _) in *.
  change (fetchedAt env w2) with
    (fetchedAt env (issue w (if USE_API env then [deleteRequest env entryId]
                             else []))) in H.
  set (fetched := fetchedAt env _) in *.
  assert (localCollection w2 = kept) as Hcol by reflexivity.
  rewrite Hcol in H.
  destruct fetched as [|r0 rest] eqn:Hf; [destruct Hr|].
  rewrite Hmerge in H. inversion H; subst.
  assert (In r (mergedSpec (r0 :: rest) kept)) as Hin
    by (unfold mergedSpec; apply in_or_app; now left).
  split; [exact Hin|].
  unfold hasId. apply existsb_exists. exists r. split; [exact Hin|].
  apply strictEq_refl.
Qed.

Lemma deleteHandler_resurrects_witness :
  In localNote
    (localCollection
       (snd (Main.deleteEntry flakyEnv true true (Some "2")
               (worldHolding [localNote]))))
  /\ hasId (Some "2")
       (localCollection
          (snd (Main.deleteEntry flakyEnv true true (Some "2")
                  (worldHolding [localNote])))) = true.
Proof.
  apply (deleteHandler_resurrects flakyEnv (Some "2")
           (worldHolding [localNote]) _ true localNote eq_refl eq_refl).
  - cbn. tauto.
  - reflexivity.
  - reflexivity.
Defined.

(** X17: the export handler and the unfiltered view read without merging:
    each makes the one listing request, takes the fetched entries when
    there are any and the local collection otherwise, and leaves the
    local store as it was; the export handler stops when both are empty,
    so it never exports an empty sequence, and the unfiltered view makes
    no search request even with remote mode enabled. *)
Theorem readers_do_not_merge (env : Env) (w : World) :
  Main.exportEntries env w
  = (Normal (match fetchedAt env w, localCollection w with
             | [], [] => None
             | [], l :: ls => Some (l :: ls)
             | r :: rs, _ => Some (r :: rs)
             end),
     issue w [listingRequest env])
  /\ Main.applyFilters env "" "" "" w
     = (Normal (match fetchedAt env w with
                | [] => localCollection w
                | r :: rs => r :: rs
                end),
        issue w [listingRequest env])
  /\ entriesSlot (issue w [listingRequest env]) = entriesSlot w.
Proof.
  split; [|split; [|reflexivity]].
  - unfold Main.exportEntries, bind.
    rewrite fetchEntriesFromJSON_eval. fold (fetchedAt env w).
    destruct (fetchedAt env w) as [|r rs].
    + rewrite getAllEntries_eval.
      change (localCollection (issue w [listingRequest env]))
        with (localCollection w).
      now destruct (localCollection w).
    + reflexivity.
  - unfold Main.applyFilters. cbn [nonEmpty orb].
    rewrite andb_false_r. unfold bind.
    rewrite fetchEntriesFromJSON_eval. fold (fetchedAt env w).
    destruct (fetchedAt env w) as [|r rs].
    + now rewrite getAllEntries_eval.
    + reflexivity.
Qed.

(* ================================================================== *)
(** ** Properties of the preferences *)

(** X18: the theme read after saving a theme is the saved one when the
    store took the write, except that an empty theme reads as dark; when
    the write was refused it is the theme read before, dark when none had
    been stored. Saving and reading never throw. *)
Theorem saveTheme_then_getTheme (storable : Preferences.Key -> string -> bool)
  (theme : string) (b : Preferences.Browser) :
  (exists saved b',
      Preferences.saveTheme storable theme b = (Normal saved, b')
      /\ saved = storable Preferences.THEME theme
      /\ Preferences.getTheme b'
         = (Normal (if storable Preferences.THEME theme
                    then match theme with
                         | EmptyString => "dark"
                         | String _ _ => theme
                         end
                    else orString (Preferences.themeSlot b) "dark"),
            b'))
  /\ Preferences.getTheme b
     = (Normal (orString (Preferences.themeSlot b) "dark"), b).
Proof.
  split; [|reflexivity].
  unfold Preferences.saveTheme, Preferences.tryCatchB, Preferences.bindB,
    Preferences.setText.
  destruct (storable Preferences.THEME theme) eqn:Hs;
    eexists; eexists; (split; [reflexivity|]); (split; [reflexivity|]).
  - destruct theme; reflexivity.
  - reflexivity.
Qed.

(** X19: the theme toggle: a click shows the other theme, with exactly one
    of the two theme classes on the body, and a second click shows the
    first theme again. After a reload the saved theme is applied, whatever
    classes the page source has: it is the theme of the last click when
    the store took the write and the theme saved before when it did not,
    and anything but light shows as dark. *)
Theorem theme_toggle_and_reload (storable : Preferences.Key -> string -> bool)
  (b : Preferences.Browser) (light dark : bool) :
  let clicked := snd (Preferences.toggleClicked storable b) in
  let twice := snd (Preferences.toggleClicked storable clicked) in
  let after :=
    snd (Preferences.applySavedTheme
           (Preferences.reloaded clicked light dark)) in
  Preferences.lightMode clicked = negb (Preferences.lightMode b)
  /\ Preferences.darkMode clicked = Preferences.lightMode b
  /\ Preferences.lightMode twice = Preferences.lightMode b
  /\ Preferences.darkMode after = negb (Preferences.lightMode after)
  /\ Preferences.lightMode after
     = (if storable Preferences.THEME
             (if Preferences.lightMode b then "dark" else "light")
        then negb (Preferences.lightMode b)
        else String.eqb (orString (Preferences.themeSlot b) "dark") "light").
Proof.
  cbn zeta.
  unfold Preferences.toggleClicked, Preferences.saveTheme,
    Preferences.tryCatchB, Preferences.bindB, Preferences.setText,
    Preferences.retB.
  cbn.
  destruct (Preferences.lightMode b) eqn:Hl; cbn;
    destruct (storable Preferences.THEME "dark") eqn:Hd;
    destruct (storable Preferences.THEME "light") eqn:Hli;
    cbn; rewrite ?Hl, ?Hd, ?Hli; cbn; repeat split;
    now destruct (String.eqb
                    (orString (Preferences.themeSlot b) "dark") "light").
Qed.

(** X20: after [markAsVisited] the visit check says yes when the store
    took the write; when it was refused the check says what it said
    before, which is yes only for the stored text true. Marking never
    throws and leaves the theme alone. *)
Theorem markAsVisited_then_hasVisitedBefore
  (storable : Preferences.Key -> string -> bool) (b : Preferences.Browser) :
  exists b',
    Preferences.markAsVisited storable b = (Normal tt, b')
    /\ Preferences.themeSlot b' = Preferences.themeSlot b
    /\ Preferences.hasVisitedBefore b'
       = (Normal (if storable Preferences.FIRST_VISIT "true"
                  then true
                  else match Preferences.visitSlot b with
                       | Some text => String.eqb text "true"
                       | None => false
                       end),
          b').
Proof.
  unfold Preferences.markAsVisited, Preferences.tryCatchB,
    Preferences.setText.
  destruct (storable Preferences.FIRST_VISIT "true");
    eexists; (split; [reflexivity|]); split; reflexivity.
Qed.

(* ================================================================== *)
(** ** Properties of the service worker *)

Import ServiceWorker.

Lemma deleteAll_filter (names : list string) (cs : CacheStorage) :
  fold_left (fun storage name => cachesDelete name storage) names cs
  = filter (fun c => negb (existsb (String.eqb (fst c)) names)) cs.
Proof.
  revert cs. induction names as [|n rest IH]; intro cs; cbn.
  - symmetry. apply filter_true.
  - rewrite IH. unfold cachesDelete. rewrite filter_filter.
    apply filter_ext. intro c. now rewrite negb_orb.
Qed.

Lemma activate_filter (cs : CacheStorage) :
  activate cs = filter (fun c => String.eqb (fst c) CACHE_NAME) cs.
Proof.
  unfold activate. rewrite deleteAll_filter.
  apply filter_ext_in. intros c Hc.
  destruct (String.eqb (fst c) CACHE_NAME) eqn:Hname.
  - apply negb_true_iff.
    destruct (existsb _ _) eqn:Hex; [|reflexivity].
    apply existsb_exists in Hex. destruct Hex as [n [Hn Heq]].
    apply filter_In in Hn. destruct Hn as [_ Hn].
    apply String.eqb_eq in Heq, Hname. subst n.
    rewrite Hname, String.eqb_refl in Hn. discriminate.
  - apply negb_false_iff. apply existsb_exists. exists (fst c). split.
    + apply filter_In. split.
      * unfold cachesKeys. now apply in_map.
      * now rewrite Hname.
    + apply String.eqb_refl.
Qed.

Lemma cacheNamed_filter (name : string) (cs : CacheStorage) :
  cacheNamed name (filter (fun c => String.eqb (fst c) name) cs)
  = cacheNamed name cs.
Proof.
  induction cs as [|[n c] rest IH]; cbn; [reflexivity|].
  destruct (String.eqb n name) eqn:Hn; cbn; [now rewrite Hn | exact IH].
Qed.

(** X21: activation deletes every cache but the current one: what is left
    of the cache storage is the caches named [CACHE_NAME], in their order
    and with their content. *)
Theorem activate_keeps_current_cache (cs : CacheStorage) :
  activate cs = filter (fun c => String.eqb (fst c) CACHE_NAME) cs
  /\ (forall name, In name (cachesKeys (activate cs)) -> name = CACHE_NAME)
  /\ cacheNamed CACHE_NAME (activate cs) = cacheNamed CACHE_NAME cs
  /\ activate (activate cs) = activate cs.
Proof.
  split; [apply activate_filter|]. rewrite !activate_filter. split; [|split].
  - intros name Hin. unfold cachesKeys in Hin. apply in_map_iff in Hin.
    destruct Hin as [c [<- Hc]]. apply filter_In in Hc.
    now apply String.eqb_eq.
  - apply cacheNamed_filter.
  - rewrite filter_filter. apply filter_ext. intro c.
    now destruct (String.eqb (fst c) CACHE_NAME).
Qed.

Lemma cacheMatch_app (u : string) (a b : Cache) :
  cacheMatch u (a ++ b)
  = match cacheMatch u a with
    | Some r => Some r
    | None => cacheMatch u b
    end.
Proof.
  induction a as [|[v r] rest IH]; cbn; [reflexivity|].
  destruct (String.eqb v u); [reflexivity | exact IH].
Qed.

Lemma cacheMatch_without (u v : string) (c : Cache) :
  cacheMatch u (filter (fun e => negb (String.eqb (fst e) v)) c)
  = if String.eqb v u then None else cacheMatch u c.
Proof.
  induction c as [|[x r] rest IH]; cbn.
  - now destruct (String.eqb v u).
  - destruct (String.eqb x v) eqn:Hxv; cbn.
    + apply String.eqb_eq in Hxv. subst x. rewrite IH.
      now destruct (String.eqb v u).
    + rewrite IH. destruct (String.eqb v u) eqn:Hvu; [|reflexivity].
      apply String.eqb_eq in Hvu. subst u. now rewrite Hxv.
Qed.

Lemma cacheMatch_put (u v : string) (s : Resource) (c : Cache) :
  cacheMatch u (cachePut v s c)
  = if String.eqb v u then Some s else cacheMatch u c.
Proof.
  unfold cachePut. rewrite cacheMatch_app, cacheMatch_without. cbn.
  destruct (String.eqb v u); [reflexivity|].
  now destruct (cacheMatch u c).
Qed.

Lemma cacheMatch_putAll_other (u : string)
  (fetched : list (string * Resource)) (c : Cache) :
  ~ In u (map fst fetched) ->
  cacheMatch u (fold_left (fun c e => cachePut (fst e) (snd e) c) fetched c)
  = cacheMatch u c.
Proof.
  revert c. induction fetched as [|[v s] rest IH]; intros c Hno; cbn;
    [reflexivity|].
  rewrite IH by (intro H; apply Hno; now right).
  rewrite cacheMatch_put. cbn.
  destruct (String.eqb v u) eqn:Hvu; [|reflexivity].
  apply String.eqb_eq in Hvu. exfalso. apply Hno. now left.
Qed.

Lemma cacheMatch_putAll (u : string) (r : Resource)
  (fetched : list (string * Resource)) (c : Cache) :
  NoDup (map fst fetched) ->
  In (u, r) fetched ->
  cacheMatch u (fold_left (fun c e => cachePut (fst e) (snd e) c) fetched c)
  = Some r.
Proof.
  revert c. induction fetched as [|[v s] rest IH]; intros c Hnd Hin;
    [destruct Hin|].
  cbn in Hnd. inversion Hnd as [|x xs Hnotin Hrest]; subst. cbn.
  destruct Hin as [Heq|Hin].
  - injection Heq as -> ->.
    rewrite cacheMatch_putAll_other by assumption.
    rewrite cacheMatch_put. cbn. now rewrite String.eqb_refl.
  - now apply IH.
Qed.

Lemma fetchAll_Some (net : Network) (urls : list string)
  (fetched : list (string * Resource)) :
  fetchAll net urls = Some fetched ->
  map fst fetched = urls
  /\ forall u r, In (u, r) fetched -> net GET u = Some r /\ okStatus r = true.
Proof.
  revert fetched. induction urls as [|u rest IH]; intros fetched H; cbn in H.
  - injection H as <-. split; [reflexivity | intros u r []].
  - destruct (net GET u) as [r|] eqn:Hnet; [|discriminate].
    destruct (okStatus r) eqn:Hok; [|discriminate].
    destruct (fetchAll net rest) as [more|]; [|discriminate].
    injection H as <-. destruct (IH more eq_refl) as [Hmap Hall].
    split; [cbn; now rewrite Hmap|].
    intros v s [Heq|Hin]; [injection Heq as <- <-; tauto | now apply Hall].
Qed.

Lemma fetchAll_None (net : Network) (urls : list string) (u : string) :
  In u urls ->
  (forall r, net GET u = Some r -> okStatus r = false) ->
  fetchAll net urls = None.
Proof.
  induction urls as [|v rest IH]; intros Hin Hbad; [destruct Hin|]. cbn.
  destruct (net GET v) as [r|] eqn:Hnet; [|reflexivity].
  destruct (okStatus r) eqn:Hok; [|reflexivity].
  destruct Hin as [->|Hin].
  - rewrite (Hbad r Hnet) in Hok. discriminate.
  - now rewrite (IH Hin Hbad).
Qed.

Lemma cachesHas_open (name : string) (cs : CacheStorage) :
  cachesHas name (cachesOpen name cs) = true.
Proof.
  unfold cachesOpen. destruct (cachesHas name cs) eqn:H; [assumption|].
  unfold cachesHas. rewrite existsb_app. cbn.
  now rewrite String.eqb_refl, orb_true_r.
Qed.

Lemma cacheNamed_withCache (name : string) (c : Cache) (cs : CacheStorage) :
  cachesHas name cs = true -> cacheNamed name (withCache name c cs) = c.
Proof.
  unfold cachesHas. induction cs as [|[n old] rest IH]; cbn; [discriminate|].
  destruct (String.eqb n name) eqn:Hn; cbn.
  - intros _. now rewrite Hn.
  - intro H. rewrite Hn. now apply IH.
Qed.

Lemma cachesMatchUrl_current (u : string) (r : Resource) (cs : CacheStorage) :
  cacheMatch u (cacheNamed CACHE_NAME cs) = Some r ->
  cachesMatchUrl u (filter (fun c => String.eqb (fst c) CACHE_NAME) cs)
  = Some r.
Proof.
  induction cs as [|[n c] rest IH]; cbn; [discriminate|].
  destruct (String.eqb n CACHE_NAME); cbn.
  - intro H. now rewrite H.
  - exact IH.
Qed.

Lemma urlsToCache_NoDup : NoDup urlsToCache.
Proof.
  unfold urlsToCache.
  repeat (constructor; [cbn; intuition discriminate|]). constructor.
Qed.

Lemma install_eval (net : Network) (cs : CacheStorage) :
  install net cs
  = match fetchAll net urlsToCache with
    | Some fetched =>
        (Normal tt,
         withCache CACHE_NAME
           (fold_left (fun c e => cachePut (fst e) (snd e) c) fetched
              (cacheNamed CACHE_NAME (cachesOpen CACHE_NAME cs)))
           (cachesOpen CACHE_NAME cs))
    | None => (Throw "TypeError", cachesOpen CACHE_NAME cs)
    end.
Proof. reflexivity. Qed.

(** X22: once the worker has installed and activated, every URL of
    [urlsToCache] is answered from the cache with the response fetched at
    installation, whatever the network does later, also when it is down. *)
Theorem installed_urls_served_from_cache (net later : Network)
  (cs cs' : CacheStorage) (u : string) :
  install net cs = (Normal tt, cs') ->
  In u urlsToCache ->
  exists r,
    net GET u = Some r
    /\ okStatus r = true
    /\ onFetch later (mkFetchRequest GET u) (activate cs') = Some r.
Proof.
  rewrite install_eval. intros H Hu.
  destruct (fetchAll net urlsToCache) as [fetched|] eqn:Hf; [|discriminate].
  inversion H as [Hcs]. clear H.
  destruct (fetchAll_Some net urlsToCache fetched Hf) as [Hmap Hall].
  assert (exists r, In (u, r) fetched) as [r Hr].
  { rewrite <- Hmap in Hu. apply in_map_iff in Hu.
    destruct Hu as [[v s] [Hv Hin]]. cbn in Hv. subst v. now exists s. }
  exists r. destruct (Hall u r Hr) as [Hnet Hok].
  split; [assumption|]. split; [assumption|].
  unfold onFetch, cachesMatch. cbn [requestMethod requestUrl].
  rewrite activate_filter.
  rewrite (cachesMatchUrl_current u r); [reflexivity|].
  rewrite cacheNamed_withCache by apply cachesHas_open.
  apply cacheMatch_putAll; [|assumption].
  rewrite Hmap. apply urlsToCache_NoDup.
Qed.

Lemma installed_urls_served_from_cache_witness :
  exists r,
    online GET "/journal" = Some r
    /\ okStatus r = true
    /\ onFetch offline (mkFetchRequest GET "/journal")
         (activate (snd (install online oldStorage)))
       = Some r.
Proof.
  apply (installed_urls_served_from_cache online offline oldStorage
           (snd (install online oldStorage)) "/journal").
  - reflexivity.
  - cbn. tauto.
Defined.

Lemma cachesMatchUrl_app (u : string) (a b : CacheStorage) :
  cachesMatchUrl u (a ++ b)
  = match cachesMatchUrl u a with
    | Some r => Some r
    | None => cachesMatchUrl u b
    end.
Proof.
  induction a as [|[n c] rest IH]; cbn; [reflexivity|].
  destruct (cacheMatch u c); [reflexivity | exact IH].
Qed.

Lemma onFetch_open (later : Network) (request : FetchRequest)
  (name : string) (cs : CacheStorage) :
  onFetch later request (cachesOpen name cs) = onFetch later request cs.
Proof.
  unfold cachesOpen. destruct (cachesHas name cs); [reflexivity|].
  unfold onFetch, cachesMatch. destruct (requestMethod request);
    try reflexivity.
  rewrite cachesMatchUrl_app. cbn.
  now destruct (cachesMatchUrl (requestUrl request) cs).
Qed.

Lemma cacheNamed_open (name : string) (cs : CacheStorage) :
  cacheNamed name (cachesOpen name cs) = cacheNamed name cs.
Proof.
  unfold cachesOpen. destruct (cachesHas name cs) eqn:Hhas; [reflexivity|].
  unfold cachesHas in Hhas.
  induction cs as [|[n c] rest IH]; cbn in *.
  - now rewrite String.eqb_refl.
  - apply orb_false_iff in Hhas. destruct Hhas as [Hn Hrest].
    rewrite Hn. now apply IH.
Qed.

(** X23: installation is all or nothing: when one URL of [urlsToCache]
    cannot be fetched, or comes back with a response that is not ok, the
    installation fails and no response is stored; what the fetch handler
    answers is what it answered before. *)
Theorem install_all_or_nothing (net : Network) (cs : CacheStorage)
  (u : string) :
  In u urlsToCache ->
  (forall r, net GET u = Some r -> okStatus r = false) ->
  install net cs = (Throw "TypeError", cachesOpen CACHE_NAME cs)
  /\ cacheNamed CACHE_NAME (snd (install net cs)) = cacheNamed CACHE_NAME cs
  /\ (forall later request,
        onFetch later request (snd (install net cs))
        = onFetch later request cs).
Proof.
  intros Hu Hbad. rewrite install_eval.
  rewrite (fetchAll_None net urlsToCache u Hu Hbad). cbn [snd].
  split; [reflexivity|]. split.
  - apply cacheNamed_open.
  - intros later request. apply onFetch_open.
Qed.

Lemma install_all_or_nothing_witness :
  install brokenImage oldStorage
  = (Throw "TypeError", cachesOpen CACHE_NAME oldStorage)
  /\ cacheNamed CACHE_NAME (snd (install brokenImage oldStorage))
     = cacheNamed CACHE_NAME oldStorage
  /\ (forall later request,
        onFetch later request (snd (install brokenImage oldStorage))
        = onFetch later request oldStorage).
Proof.
  apply (install_all_or_nothing brokenImage oldStorage
           "/static/images/profile.jpeg").
  - cbn. tauto.
  - intros r H. injection H as <-. reflexivity.
Defined.

Lemma cacheMatch_In (u : string) (r : Resource) (c : Cache) :
  cacheMatch u c = Some r -> In (u, r) c.
Proof.
  induction c as [|[v s] rest IH]; cbn; [discriminate|].
  destruct (String.eqb v u) eqn:Hvu.
  - intro H. injection H as ->. apply String.eqb_eq in Hvu. subst. now left.
  - intro H. right. now apply IH.
Qed.

Lemma In_putAll (e : string * Resource)
  (fetched : list (string * Resource)) (c : Cache) :
  In e (fold_left (fun c e => cachePut (fst e) (snd e) c) fetched c) ->
  In e c \/ In e fetched.
Proof.
  revert c. induction fetched as [|[v s] rest IH]; intros c H; cbn in H;
    [now left|].
  apply IH in H. destruct H as [H|H]; [|right; now right].
  unfold cachePut in H. apply in_app_or in H. destruct H as [H|H].
  - apply filter_In in H. now left.
  - destruct H as [<-|[]]. right. now left.
Qed.

Lemma In_withCache (name n : string) (c new : Cache) (cs : CacheStorage) :
  In (n, c) (withCache name new cs) ->
  In (n, c) cs \/ (n = name /\ c = new).
Proof.
  induction cs as [|[m old] rest IH]; cbn; [tauto|].
  destruct (String.eqb m name) eqn:Hm.
  - intros [H|H]; [|left; now right].
    injection H as <- <-. apply String.eqb_eq in Hm. right. now split.
  - intros [H|H]; [left; now left|].
    destruct (IH H) as [H'|H']; [left; now right | now right].
Qed.

Lemma In_cacheNamed (name : string) (e : string * Resource)
  (cs : CacheStorage) :
  In e (cacheNamed name cs) -> exists c, In (name, c) cs /\ In e c.
Proof.
  induction cs as [|[n c] rest IH]; cbn; [intros []|].
  destruct (String.eqb n name) eqn:Hn.
  - intro H. apply String.eqb_eq in Hn. subst n. exists c. split;
      [now left | assumption].
  - intro H. destruct (IH H) as [c' [H1 H2]]. exists c'. split;
      [now right | assumption].
Qed.

Lemma shellOnly_open (cs : CacheStorage) :
  shellOnly cs -> shellOnly (cachesOpen CACHE_NAME cs).
Proof.
  unfold cachesOpen. destruct (cachesHas CACHE_NAME cs); [tauto|].
  intros H n c u r Hin Hn Hu. apply in_app_or in Hin.
  destruct Hin as [Hin|[Heq|[]]].
  - exact (H n c u r Hin Hn Hu).
  - injection Heq as <- <-. destruct Hu.
Qed.

Lemma shellOnly_install (net : Network) (cs : CacheStorage) :
  shellOnly cs -> shellOnly (snd (install net cs)).
Proof.
  intro H. apply shellOnly_open in H. rewrite install_eval.
  destruct (fetchAll net urlsToCache) as [fetched|] eqn:Hf; cbn [snd];
    [|exact H].
  destruct (fetchAll_Some net urlsToCache fetched Hf) as [Hmap _].
  intros n c u r Hin Hn Hu. apply In_withCache in Hin.
  destruct Hin as [Hin|[_ ->]]; [exact (H n c u r Hin Hn Hu)|].
  apply In_putAll in Hu. destruct Hu as [Hu|Hu].
  - apply In_cacheNamed in Hu. destruct Hu as [c' [H1 H2]].
    exact (H CACHE_NAME c' u r H1 eq_refl H2).
  - rewrite <- Hmap. apply in_map_iff. exists (u, r). now split.
Qed.

Lemma cachesMatchUrl_shell (u : string) (cs : CacheStorage) :
  shellOnly cs ->
  ~ In u urlsToCache ->
  cachesMatchUrl u (filter (fun c => String.eqb (fst c) CACHE_NAME) cs)
  = None.
Proof.
  intros H Hu. induction cs as [|[n c] rest IH]; cbn; [reflexivity|].
  assert (shellOnly rest) as Hrest
    by (intros n' c' u' r' Hin; apply (H n' c' u' r'); now right).
  destruct (String.eqb n CACHE_NAME) eqn:Hn; cbn; [|now apply IH].
  destruct (cacheMatch u c) as [r|] eqn:Hm; [|now apply IH].
  apply cacheMatch_In in Hm. apply String.eqb_eq in Hn.
  exfalso. apply Hu. exact (H n c u r (or_introl eq_refl) Hn Hm).
Qed.

(** X24: the worker caches the pages and assets of [urlsToCache] and
    nothing else: as long as its cache holds only such URLs, it still
    does after an installation, and once activated the worker passes
    every GET for another URL (the journal API among them) on to the
    network. A request that is not a GET is passed on to the network
    whatever its URL and whatever the caches hold. So journal data is
    never answered from the cache and is not available offline. *)
Theorem other_requests_go_to_network (net later : Network)
  (cs : CacheStorage) (u : string) :
  shellOnly cs ->
  ~ In u urlsToCache ->
  shellOnly (activate (snd (install net cs)))
  /\ onFetch later (mkFetchRequest GET u) (activate (snd (install net cs)))
     = later GET u
  /\ (forall (m : Method) (url : string) (storage : CacheStorage),
        m <> GET ->
        onFetch later (mkFetchRequest m url) storage = later m url).
Proof.
  intros H Hu. apply (shellOnly_install net) in H.
  split; [|split].
  - rewrite activate_filter. intros n c v r Hin.
    apply filter_In in Hin. destruct Hin as [Hin _].
    exact (H n c v r Hin).
  - unfold onFetch, cachesMatch. cbn [requestMethod requestUrl].
    rewrite activate_filter. now rewrite cachesMatchUrl_shell.
  - intros m url storage Hm.
    unfold onFetch, cachesMatch. cbn [requestMethod requestUrl].
    destruct m; try reflexivity. contradiction.
Qed.

Lemma other_requests_go_to_network_witness :
  shellOnly (activate (snd (install online oldStorage)))
  /\ onFetch offline (mkFetchRequest GET "/reflections")
       (activate (snd (install online oldStorage)))
     = offline GET "/reflections"
  /\ (forall (m : Method) (url : string) (storage : CacheStorage),
        m <> GET ->
        onFetch offline (mkFetchRequest m url) storage = offline m url).
Proof.
  apply (other_requests_go_to_network online offline oldStorage
           "/reflections").
  - intros n c u r [Heq|[]] Hn. injection Heq as <- <-. discriminate.
  - cbn. intuition discriminate.
Defined.

(** A POST to a cached page is not answered from the cache. *)
Example onFetch_post_cached_page :
  onFetch offline (mkFetchRequest GET "/journal")
    (activate (snd (install online oldStorage)))
  = Some {| okStatus := true; payload := "/journal" |}
  /\ onFetch offline (mkFetchRequest POST "/journal")
       (activate (snd (install online oldStorage)))
     = None.
Proof. split; reflexivity. Qed.

(* ================================================================== *)
(** ** Clearing and rendering *)



